(** * netspeed: a shallow embedding of [src/main.c]

    The program samples the per-interface byte counters of
    [/proc/net/dev] once per polling interval, matches the interfaces of
    two consecutive snapshots by name, and prints the aggregate receive
    and transmit rates as one JSON line per cycle.

    Conventions of the embedding:
    - [unsigned long long] values are [Z] in [0, 2^64) with wrap-around
      written out ([sub64], [add64]); [int] and [unsigned int] are [Z];
    - a C string is a [string]; a fixed array [interface_t x[32]] is a
      [list interface_t] of length 32, written by index;
    - [double] is IEEE-754 binary64 as specified by [SpecFloat]
      (precision 53, maximal exponent 1024, round to nearest even);
    - output is a list of events, one per line written;
    - the environment is explicit: the result of each [fopen] of
      [/proc/net/dev] (its contents, or [None] when it cannot be
      opened) and the [stat] test on [/sys/class/net/NAME]. *)

From Stdlib Require Import ZArith String Ascii Bool Lia DecimalString.
From Stdlib Require DecimalN.
From Corelib Require Import SpecFloat.
From stdpp Require Import base list.

Open Scope string_scope.
Open Scope Z_scope.

(** ** Constants and data (main.c, lines 17-30) *)

Definition MAX_INTERFACES : Z := 32.
Definition MAX_LINE_LEN : Z := 256.
Definition MAX_NAME_LEN : Z := 16.
Definition DECIMAL_BASE : Z := 1000.

Record interface_t : Type := Interface {
  name : string;
  rx_bytes : Z;
  tx_bytes : Z
}.

(** The file-scope variables. [interface_filter] points into [argv] and
    [filter_count] is the number of entries behind it: together they are
    a list, and [filter_count] is its length. *)
Record globals : Type := Globals {
  polling_interval : Z;
  interface_filter : list string
}.

Definition filter_count (g : globals) : Z :=
  Z.of_nat (length (interface_filter g)).

(** An [interface_t] as zero-initialised by [= {}]. *)
Definition zero_interface : interface_t := Interface "" 0 0.

Definition zero_interfaces : list interface_t :=
  replicate (Z.to_nat MAX_INTERFACES) zero_interface.

(** ** Machine arithmetic *)

Definition ULLONG_MAX : Z := 2 ^ 64 - 1.
Definition wrap64 (z : Z) : Z := z mod 2 ^ 64.
Definition sub64 (a b : Z) : Z := wrap64 (a - b).
Definition add64 (a b : Z) : Z := wrap64 (a + b).
Definition wrap32 (z : Z) : Z := z mod 2 ^ 32.

(** ** C string helpers *)

(** [strcmp]: negative, zero or positive; zero exactly on equal strings. *)
Definition strcmp (a b : string) : Z :=
  match String.compare a b with
  | Eq => 0
  | Lt => -1
  | Gt => 1
  end.

Definition isspace (c : ascii) : bool :=
  let n := nat_of_ascii c in
  (n =? 32)%nat || ((9 <=? n)%nat && (n <=? 13)%nat).

Definition isdigit (c : ascii) : bool :=
  let n := nat_of_ascii c in (48 <=? n)%nat && (n <=? 57)%nat.

Definition digit_value (c : ascii) : Z := Z.of_nat (nat_of_ascii c) - 48.

Fixpoint skip_spaces (s : string) : string :=
  match s with
  | String c s' => if isspace c then skip_spaces s' else s
  | EmptyString => s
  end.

(** The digits at the head of [s], accumulated in base ten onto [acc];
    returns the value and the unread rest. *)
Fixpoint scan_digits (acc : Z) (s : string) : Z * string :=
  match s with
  | String c s' =>
      if isdigit c then scan_digits (10 * acc + digit_value c) s'
      else (acc, s)
  | EmptyString => (acc, s)
  end.

(** An optional sign at the head of [s]: [true] for a minus. *)
Definition scan_sign (s : string) : bool * string :=
  match s with
  | String "-" s' => (true, s')
  | String "+" s' => (false, s')
  | _ => (false, s)
  end.

Definition starts_with_digit (s : string) : bool :=
  match s with
  | String c _ => isdigit c
  | EmptyString => false
  end.

(** The first [n] characters of [s] (the precision of [%.15s], and the
    bound of [snprintf]). *)
Definition truncate (n : nat) (s : string) : string := substring 0 n s.

(** Decimal rendering of a non-negative integer ([%llu]). *)
Definition string_of_Z (z : Z) : string :=
  NilZero.string_of_uint (N.to_uint (Z.to_N z)).

(** ** [interface_exists] (lines 37-42)

    The [stat] call is the environment's: [host n] tells whether
    [/sys/class/net/n] exists. *)
Definition interface_exists (host : string -> bool) (n : string) : bool :=
  host n.

(** ** [is_valid_interface] (lines 44-56)

    The pattern is a POSIX extended regular expression. The fragment the
    program uses has literals, alternation, concatenation and the
    start-of-string anchor. *)
Inductive regex : Type :=
| Bol
| Lit (s : string)
| Alt (r1 r2 : regex)
| Cat (r1 r2 : regex).

(** The compiled form of ["^(eth|wlan|enp|wlp)"]. *)
Definition interface_regex : regex :=
  Cat Bol (Alt (Lit "eth") (Alt (Lit "wlan") (Alt (Lit "enp") (Lit "wlp")))).

(** A matcher state: whether the position is the start of the subject,
    and the unread rest. [rx_step r st] lists the states reachable by
    matching [r] from [st]. *)
Fixpoint drop_prefix (p s : string) : option string :=
  match p, s with
  | EmptyString, _ => Some s
  | String a p', String b s' =>
      if Ascii.eqb a b then drop_prefix p' s' else None
  | String _ _, EmptyString => None
  end.

Fixpoint rx_step (r : regex) (st : bool * string) : list (bool * string) :=
  match r with
  | Bol => if st.1 then [st] else []
  | Lit p =>
      match drop_prefix p st.2 with
      | Some rest =>
          [(st.1 && match p with EmptyString => true | _ => false end, rest)]
      | None => []
      end
  | Alt r1 r2 => (rx_step r1 st ++ rx_step r2 st)%list
  | Cat r1 r2 => mbind (rx_step r2) (rx_step r1 st)
  end.

Definition rx_matches_at (r : regex) (st : bool * string) : bool :=
  match rx_step r st with
  | [] => false
  | _ :: _ => true
  end.

(** Whether [r] matches somewhere in the subject, trying every start
    position after the one of [st]. *)
Fixpoint rx_search_from (r : regex) (s : string) : bool :=
  match s with
  | EmptyString => false
  | String _ s' => rx_matches_at r (false, s') || rx_search_from r s'
  end.

(** [regexec(&regex, s, 0, NULL, 0) == 0]: an unanchored search. *)
Definition regexec (r : regex) (s : string) : bool :=
  rx_matches_at r (true, s) || rx_search_from r s.

(** [regcomp] of the constant pattern succeeds, so the function is the
    [regexec] test. *)
Definition is_valid_interface (n : string) : bool :=
  regexec interface_regex n.

(** ** [format_human_readable] (lines 58-76) *)

Definition double : Type := spec_float.
Definition prec : Z := 53.
Definition emax : Z := 1024.

(** [(double)bytes], rounded to nearest even when [bytes] has more than
    53 significant bits. *)
Definition double_of_ull (b : Z) : double := binary_normalize prec emax b 0 false.
Definition double_div (x y : double) : double := SFdiv prec emax x y.
Definition double_ge (x y : double) : bool := SFleb y x.

(** The constant [1000.0], which is also [(double)DECIMAL_BASE]. *)
Definition d1000 : double := double_of_ull DECIMAL_BASE.

(** The integer nearest to [10 * m * 2^e], ties to even: the digits that
    [%.1f] prints for the binary value [m * 2^e]. *)
Definition round_tenths (m : positive) (e : Z) : Z :=
  if 0 <=? e then 10 * Z.pos m * 2 ^ e
  else
    let d := 2 ^ (- e) in
    let n := 10 * Z.pos m in
    let q := n / d in
    match 2 * (n mod d) ?= d with
    | Lt => q
    | Gt => q + 1
    | Eq => if Z.even q then q else q + 1
    end.

Definition sign_string (s : bool) : string := if s then "-" else "".

(** [printf("%.1f", x)] *)
Definition printf_1f (x : double) : string :=
  match x with
  | S754_zero s => sign_string s ++ "0.0"
  | S754_infinity s => sign_string s ++ "inf"
  | S754_nan => "nan"
  | S754_finite s m e =>
      let q := round_tenths m e in
      sign_string s ++ string_of_Z (q / 10) ++ "." ++ string_of_Z (q mod 10)
  end.

Definition units : list string := ["B"; "K"; "M"; "G"; "T"; "P"].

(** The [while] loop of lines 70-73. [u] is [units[unit_idx]] and [rest]
    the units after it, so [unit_idx < num_units - 1] is the test that
    [rest] is not empty. *)
Fixpoint scale_units (value : double) (u : string) (rest : list string)
  : double * string :=
  match rest with
  | [] => (value, u)
  | u' :: rest' =>
      if double_ge value d1000
      then scale_units (double_div value d1000) u' rest'
      else (value, u)
  end.

Definition format_human_readable (bytes : Z) : string :=
  match units with
  | [] => ""
  | u0 :: rest =>
      if bytes <? DECIMAL_BASE then truncate 15 (string_of_Z bytes ++ u0)
      else
        let '(value, u) := scale_units (double_of_ull bytes) u0 rest in
        truncate 15 (printf_1f value ++ u)
  end.

(** ** Output (lines 78-92) *)

Inductive event : Type :=
| ErrorLine (text tooltip : string)
| SampleLine (rx_str tx_str : string)
| UsageLine (progname : string).

Definition output_error (text tooltip : string) : event :=
  ErrorLine text tooltip.

Definition output_json (rx_rate tx_rate : Z) : event :=
  SampleLine (format_human_readable rx_rate) (format_human_readable tx_rate).

Definition is_sample (e : event) : bool :=
  match e with SampleLine _ _ => true | _ => false end.

Definition is_error (e : event) : bool :=
  match e with ErrorLine _ _ => true | _ => false end.

Fixpoint spaces (n : nat) : string :=
  match n with
  | O => ""
  | S n' => String " " (spaces n')
  end.

(** [%4s]: right-aligned in a field of at least four columns. *)
Definition pad4 (s : string) : string :=
  spaces (4 - String.length s) ++ s.

Definition dq : string := String (ascii_of_nat 34) "".
Definition nl : string := String (ascii_of_nat 10) "".
Definition warning_sign : string :=
  String (ascii_of_nat 226) (String (ascii_of_nat 154) (String (ascii_of_nat 160) "")).

(** The bytes each event puts on its stream. *)
Definition render (e : event) : string :=
  match e with
  | ErrorLine text tooltip =>
      "{" ++ dq ++ "text" ++ dq ++ ": " ++ dq ++ warning_sign ++ " " ++ text ++ dq
      ++ ", " ++ dq ++ "tooltip" ++ dq ++ ": " ++ dq ++ tooltip ++ dq
      ++ ", " ++ dq ++ "class" ++ dq ++ ": " ++ dq ++ "error" ++ dq ++ "}" ++ nl
  | SampleLine rx_str tx_str =>
      "{" ++ dq ++ "text" ++ dq ++ ": " ++ dq ++ pad4 rx_str ++ "  " ++ pad4 tx_str
      ++ " " ++ dq ++ "}" ++ nl
  | UsageLine progname =>
      "Usage: " ++ progname ++ " [-t POLLING_INTERVAL] [INTERFACE...]" ++ nl
  end.

(** ** [read_interfaces] (lines 94-159) *)

(** The lines that successive [fgets(line, 256, fp)] calls return on a
    stream holding [s]: each ends after a newline or after 255
    characters. [room] is the space left in the buffer for the line being
    read. *)
Fixpoint fgets_lines_from (room : nat) (s : string) : list string :=
  match s with
  | EmptyString => []
  | String c s' =>
      if Ascii.eqb c (ascii_of_nat 10) || (room <=? 1)%nat
      then String c "" :: fgets_lines_from (Z.to_nat MAX_LINE_LEN - 1) s'
      else
        match fgets_lines_from (room - 1) s' with
        | [] => [String c ""]
        | l :: ls => String c l :: ls
        end
  end.

Definition fgets_lines (s : string) : list string :=
  fgets_lines_from (Z.to_nat MAX_LINE_LEN - 1) s.

(** [strchr] for the colon, which is then overwritten by a terminator:
    the text before the first colon and the text after it. *)
Fixpoint split_at_colon (s : string) : option (string * string) :=
  match s with
  | EmptyString => None
  | String c s' =>
      if Ascii.eqb c ":" then Some ("", s')
      else
        match split_at_colon s' with
        | Some (before, after) => Some (String c before, after)
        | None => None
        end
  end.

(** The loop of lines 117-118: leading blanks of the name are skipped. *)
Fixpoint strip_blanks (s : string) : string :=
  match s with
  | String " " s' => strip_blanks s'
  | _ => s
  end.

(** One [%llu] conversion: white space, an optional sign, at least one
    digit. An overflowing value is [ULLONG_MAX]; a minus negates modulo
    [2^64]. *)
Definition scan_llu (s : string) : option (Z * string) :=
  let '(neg, s2) := scan_sign (skip_spaces s) in
  if starts_with_digit s2 then
    let '(v, rest) := scan_digits 0 s2 in
    Some (if ULLONG_MAX <? v then ULLONG_MAX
          else if neg then wrap64 (- v) else v, rest)
  else None.

(** [sscanf] with [n] [%llu] directives: the values converted before the
    first failure. Its return value is their number. *)
Fixpoint sscanf_llu (n : nat) (s : string) : list Z :=
  match n with
  | O => []
  | S n' =>
      match scan_llu s with
      | Some (v, rest) => v :: sscanf_llu n' rest
      | None => []
      end
  end.

(** The [for] loop of lines 123-128. *)
Fixpoint filter_lookup (n : string) (fs : list string) : bool :=
  match fs with
  | [] => false
  | f :: fs' => if strcmp n f =? 0 then true else filter_lookup n fs'
  end.

(** The inclusion decision of lines 120-135. *)
Definition interface_selected (g : globals) (n : string) : bool :=
  if 0 <? filter_count g then filter_lookup n (interface_filter g)
  else is_valid_interface n.

(** The body of the [while] loop: [Some] entry when the line is stored,
    [None] when it is skipped. *)
Definition scan_line (g : globals) (line : string) : option interface_t :=
  match split_at_colon line with
  | None => None
  | Some (before, data) =>
      let n := strip_blanks before in
      if interface_selected g n then
        let vs := sscanf_llu 16 data in
        if Z.of_nat (length vs) =? 16
        then Some (Interface (truncate (Z.to_nat MAX_NAME_LEN - 1) (truncate 15 n))
                     (nth 0 vs 0) (nth 8 vs 0))
        else None
      else None
  end.

(** The [while] loop of lines 108-155 over the lines still to be read. *)
Fixpoint read_loop (g : globals) (lines : list string)
    (interfaces : list interface_t) (count : Z) : list interface_t * Z :=
  match lines with
  | [] => (interfaces, count)
  | line :: rest =>
      if count <? MAX_INTERFACES then
        match scan_line g line with
        | Some e => read_loop g rest (<[Z.to_nat count := e]> interfaces) (count + 1)
        | None => read_loop g rest interfaces count
        end
      else (interfaces, count)
  end.

(** [source] is the outcome of [fopen]: the contents of [/proc/net/dev],
    or [None]. Returns the count, the array as written, and the output. *)
Definition read_interfaces (g : globals) (source : option string)
    (interfaces : list interface_t) : Z * list interface_t * list event :=
  match source with
  | None => (-1, interfaces, [output_error "Error" "Cannot open /proc/net/dev"])
  | Some contents =>
      let '(interfaces', count) :=
        read_loop g (drop 2 (fgets_lines contents)) interfaces 0 in
      (count, interfaces', [])
  end.

(** ** [calculate_and_output_rates] (lines 161-183) *)

(** The inner loop (lines 168-179) over the entries [prev[0..count)]:
    the first one whose name equals that of [c]. *)
Fixpoint find_match (c : interface_t) (prev : list interface_t)
  : option interface_t :=
  match prev with
  | [] => None
  | p :: prev' =>
      if strcmp (name c) (name p) =? 0 then Some p else find_match c prev'
  end.

(** Lines 170-173: the difference of two counters over the interval, in
    [unsigned long long]. *)
Definition rate (g : globals) (cur prv : Z) : Z :=
  sub64 cur prv / polling_interval g.

(** The outer loop (lines 166-180) over the entries [curr[0..count)]. *)
Fixpoint sum_rates (g : globals) (prev curr : list interface_t)
    (totals : Z * Z) : Z * Z :=
  match curr with
  | [] => totals
  | c :: curr' =>
      match find_match c prev with
      | Some p =>
          sum_rates g prev curr'
            (add64 totals.1 (rate g (rx_bytes c) (rx_bytes p)),
             add64 totals.2 (rate g (tx_bytes c) (tx_bytes p)))
      | None => sum_rates g prev curr' totals
      end
  end.

(** Both loops are bounded by the one [count] argument. *)
Definition calculate_rates (g : globals) (prev curr : list interface_t)
    (count : Z) : Z * Z :=
  sum_rates g (take (Z.to_nat count) prev) (take (Z.to_nat count) curr) (0, 0).

Definition calculate_and_output_rates (g : globals)
    (prev curr : list interface_t) (count : Z) : event :=
  let '(total_rx_rate, total_tx_rate) := calculate_rates g prev curr count in
  output_json total_rx_rate total_tx_rate.

(** ** [main] (lines 185-246) *)

(** What the [getopt(argc, argv, "t:")] loop sees: the options in order,
    each [-t] with its argument, and the operands left at [optind]. *)
Inductive getopt_result : Type :=
| Opt_t (optarg : string)
| Opt_unknown.

Record cmdline : Type := Cmdline {
  progname : string;
  options : list getopt_result;
  operands : list string
}.

Definition LONG_MAX : Z := 2 ^ 63 - 1.
Definition LONG_MIN : Z := - 2 ^ 63.

(** [strtol(s, NULL, 10)]: white space, an optional sign, the digits (none
    gives 0), clamped to the range of [long]. *)
Definition strtol (s : string) : Z :=
  let '(neg, s2) := scan_sign (skip_spaces s) in
  let '(v, _) := scan_digits 0 s2 in
  Z.max LONG_MIN (Z.min LONG_MAX (if neg then - v else v)).

(** Conversion to [int]. *)
Definition to_int (z : Z) : Z := (z + 2 ^ 31) mod 2 ^ 32 - 2 ^ 31.

Definition atoi (s : string) : Z := to_int (strtol s).

Definition usage (prog : string) : event := UsageLine prog.

(** The option loop of lines 189-201: the interval, or the exit status
    with the output written before it. The assignment to the
    [unsigned int polling_interval] converts the [int] modulo [2^32]. *)
Fixpoint parse_options (prog : string) (opts : list getopt_result)
    (interval : Z) : Z + Z * list event :=
  match opts with
  | [] => inl interval
  | Opt_t optarg :: opts' =>
      let interval' := wrap32 (atoi optarg) in
      if interval' <? 1
      then inr (1, [output_error optarg "Invalid polling interval"])
      else parse_options prog opts' interval'
  | Opt_unknown :: _ => inr (1, [usage prog])
  end.

(** The validation loop of lines 209-214: the error for the first name
    that does not exist. *)
Fixpoint validate_filter (host : string -> bool) (fs : list string)
  : option event :=
  match fs with
  | [] => None
  | f :: fs' =>
      if interface_exists host f then validate_filter host fs'
      else Some (output_error f "Interface does not exist")
  end.

(** The local variables of [main] that live across iterations. *)
Record state : Type := State {
  prev_interfaces : list interface_t;
  curr_interfaces : list interface_t;
  prev_count : Z
}.

(** [memcpy(prev, curr, sizeof(interface_t) * n)] *)
Definition memcpy (prev curr : list interface_t) (n : Z) : list interface_t :=
  (take (Z.to_nat n) curr ++ drop (Z.to_nat n) prev)%list.

(** One iteration of the [while (true)] loop (lines 228-242), given the
    outcome of its [fopen]. *)
Definition cycle (g : globals) (st : state) (source : option string)
  : state * list event :=
  let '(curr_count, curr, out) :=
    read_interfaces g source (curr_interfaces st) in
  if curr_count <=? 0
  then (State (prev_interfaces st) curr (prev_count st), out)
  else
    let out' :=
      if 0 <? prev_count st
      then [calculate_and_output_rates g (prev_interfaces st) curr curr_count]
      else [] in
    (State (memcpy (prev_interfaces st) curr curr_count) curr curr_count,
     (out ++ out')%list).

(** The loop run over the outcomes of its successive [fopen] calls. *)
Fixpoint polling_loop (g : globals) (st : state)
    (sources : list (option string)) : state * list event :=
  match sources with
  | [] => (st, [])
  | source :: sources' =>
      let '(st', out) := cycle g st source in
      let '(st'', out') := polling_loop g st' sources' in
      (st'', (out ++ out')%list)
  end.

(** [main] either returns a status or is still in its loop after the
    given cycles. *)
Inductive outcome : Type :=
| Exited (status : Z)
| Polling (g : globals) (st : state).

(** The part of [main] from the initial read on (lines 217-243). *)
Definition run (g : globals) (first : option string)
    (rest : list (option string)) : outcome * list event :=
  let '(count, prev, out) := read_interfaces g first zero_interfaces in
  if count <=? 0 then (Exited 1, out)
  else
    let '(st, out') := polling_loop g (State prev zero_interfaces count) rest in
    (Polling g st, (out ++ out')%list).

(** Lines 186-215: the configuration, or the exit status and output. *)
Definition configure (host : string -> bool) (cl : cmdline)
  : globals + Z * list event :=
  match parse_options (progname cl) (options cl) 1 with
  | inr failure => inr failure
  | inl interval =>
      match validate_filter host (operands cl) with
      | Some e => inr (1, [e])
      | None => inl (Globals interval (operands cl))
      end
  end.

(** [first] is the outcome of the initial [fopen], [rest] those of the
    loop's. *)
Definition main (host : string -> bool) (cl : cmdline)
    (first : option string) (rest : list (option string))
  : outcome * list event :=
  match configure host cl with
  | inr (status, out) => (Exited status, out)
  | inl g => run g first rest
  end.

(** ** Sample inputs *)

Definition dev_header : string :=
  "Inter-|   Receive                                                |  Transmit" ++ nl ++
  " face |bytes    packets errs drop fifo frame compressed multicast|bytes    packets errs drop fifo colls carrier compressed" ++ nl.

(** A line of [/proc/net/dev] for interface [n] with the given byte
    counters. *)
Definition dev_line (n : string) (rx tx : Z) : string :=
  "  " ++ n ++ ": " ++ string_of_Z rx ++ " 10 0 0 0 0 0 0 "
  ++ string_of_Z tx ++ " 20 0 0 0 0 0 0" ++ nl.

Definition no_args : cmdline := Cmdline "netspeed" [] [].
Definition any_host : string -> bool := fun _ => true.

(** Two interfaces; then the wired one has gone. *)
Definition dev_two : string :=
  dev_header ++ dev_line "lo" 100 100 ++ dev_line "eth0" 5000 700
  ++ dev_line "wlan0" 1000 500.

Definition dev_one : string :=
  dev_header ++ dev_line "lo" 100 100 ++ dev_line "wlan0" 3000 1500.

(** ** Vocabulary of the statements *)

(** The four name prefixes of the pattern. *)
Definition interface_prefixes : list string := ["eth"; "wlan"; "enp"; "wlp"].

Definition has_prefix (p s : string) : bool :=
  match drop_prefix p s with
  | Some _ => true
  | None => false
  end.

(** The entries that the lines of a source yield, in order, before the
    cap is applied. *)
Definition scanned (g : globals) (contents : string) : list interface_t :=
  omap (scan_line g) (drop 2 (fgets_lines contents)).

(** [n] lines, for the interfaces [eth k], [eth (k+1)], ... *)
Fixpoint dev_lines (n : nat) (k : Z) : string :=
  match n with
  | O => ""
  | S n' => dev_line ("eth" ++ string_of_Z k) k k ++ dev_lines n' (k + 1)
  end.

(** No sample line among the lines written. *)
Definition no_sample (out : list event) : Prop :=
  forallb (fun e => negb (is_sample e)) out = true.

(** The calculation as the specification words it: for every interface
    of the current snapshot, the whole previous snapshot is searched. *)
Definition spec_compute_rates (g : globals)
    (previous current : list interface_t) : Z * Z :=
  sum_rates g previous current (0, 0).

(** The second half of [binary_round_aux]: the rounded mantissa is
    brought back to 53 bits. *)
Definition round_finish (sx : bool) (m1 e1 : Z) : spec_float :=
  let '(mrs, e) := shr_fexp prec emax m1 e1 loc_Exact in
  match shr_m mrs with
  | Z0 => S754_zero sx
  | Z.pos m => if e <=? emax - prec then S754_finite sx m e else S754_infinity sx
  | Z.neg _ => S754_nan
  end.

(** The [n] integers from [lo] on. *)
Fixpoint Zrange (lo : Z) (n : nat) : list Z :=
  match n with
  | O => []
  | S n' => lo :: Zrange (lo + 1) n'
  end.

Definition all_digits (s : string) : bool :=
  forallb isdigit (list_ascii_of_string s).

(** The text for a count below 1000 fits the buffer and is all digits
    before the unit. *)
Definition small_text_ok (b : Z) : bool :=
  String.eqb (truncate 15 (string_of_Z b ++ "B")) (string_of_Z b ++ "B")
  && all_digits (string_of_Z b).

(** The text for [q] tenths fits the buffer; its integer part is all
    digits and its fraction is one digit. *)
Definition tenths_text (q : Z) : string :=
  string_of_Z (q / 10) ++ "." ++ string_of_Z (q mod 10).

Definition tenths_text_ok (q : Z) : bool :=
  String.eqb (truncate 15 (tenths_text q ++ "K")) (tenths_text q ++ "K")
  && all_digits (string_of_Z (q / 10))
  && all_digits (string_of_Z (q mod 10))
  && (String.length (string_of_Z (q mod 10)) =? 1)%nat.

(** The value of a decimal numeral read onto [acc], most significant
    digit first. *)
Fixpoint uint_value (acc : Z) (d : Decimal.uint) : Z :=
  match d with
  | Decimal.Nil => acc
  | Decimal.D0 d' => uint_value (10 * acc) d'
  | Decimal.D1 d' => uint_value (10 * acc + 1) d'
  | Decimal.D2 d' => uint_value (10 * acc + 2) d'
  | Decimal.D3 d' => uint_value (10 * acc + 3) d'
  | Decimal.D4 d' => uint_value (10 * acc + 4) d'
  | Decimal.D5 d' => uint_value (10 * acc + 5) d'
  | Decimal.D6 d' => uint_value (10 * acc + 6) d'
  | Decimal.D7 d' => uint_value (10 * acc + 7) d'
  | Decimal.D8 d' => uint_value (10 * acc + 8) d'
  | Decimal.D9 d' => uint_value (10 * acc + 9) d'
  end.


(** No colon in [s]. *)
Definition colon_free (s : string) : bool :=
  forallb (fun c => negb (Ascii.eqb c ":")) (list_ascii_of_string s).

(** A value of [unsigned long long]. *)
Definition in_u64 (v : Z) : Prop := 0 <= v < 2 ^ 64.

(** What every stored entry satisfies. *)
Definition well_formed_entry (g : globals) (e : interface_t) : Prop :=
  (String.length (name e) <= 15)%nat
  /\ in_u64 (rx_bytes e) /\ in_u64 (tx_bytes e)
  /\ exists n, interface_selected g n = true /\ name e = truncate 15 n.


(** The snapshot a source yields: its first 32 entries. *)
Definition snapshot_of (g : globals) (contents : string) : list interface_t :=
  take (Z.to_nat MAX_INTERFACES) (scanned g contents).

(** The snapshot retained in a state: the first [prev_count] entries of
    [prev_interfaces]. *)
Definition retained (st : state) : list interface_t :=
  take (Z.to_nat (prev_count st)) (prev_interfaces st).

(** The bounds that every access of the loop relies on, and the shape of
    the retained entries. *)
Definition state_ok (g : globals) (st : state) : Prop :=
  length (prev_interfaces st) = Z.to_nat MAX_INTERFACES
  /\ length (curr_interfaces st) = Z.to_nat MAX_INTERFACES
  /\ 1 <= prev_count st <= MAX_INTERFACES
  /\ Forall (well_formed_entry g) (retained st).

(** The lines of a list put end to end. *)
Fixpoint concat_lines (ls : list string) : string :=
  match ls with
  | [] => ""
  | l :: ls' => l ++ concat_lines ls'
  end.

(** A line as [fgets] returns it into a buffer of [room + 1] bytes: not
    empty, at most [room] characters, and a newline, if any, only at its
    end. *)
Fixpoint line_within (room : nat) (l : string) : bool :=
  match l, room with
  | EmptyString, _ => false
  | String _ _, O => false
  | String c EmptyString, S _ => true
  | String c l', S room' =>
      negb (Ascii.eqb c (ascii_of_nat 10)) && line_within room' l'
  end.

Definition fgets_line (l : string) : bool :=
  line_within (Z.to_nat MAX_LINE_LEN - 1) l.

(** A positive normal number of binary64 with its exponent in a given
    range. *)
Definition normal_in (lo hi : Z) (x : double) : Prop :=
  exists m e, x = S754_finite false m e
              /\ 2 ^ 52 <= Z.pos m < 2 ^ 53 /\ lo <= e <= hi.

(** The number of characters of a decimal numeral. *)
Fixpoint uint_length (d : Decimal.uint) : nat :=
  match d with
  | Decimal.Nil => O
  | Decimal.D0 d' | Decimal.D1 d' | Decimal.D2 d' | Decimal.D3 d' | Decimal.D4 d'
  | Decimal.D5 d' | Decimal.D6 d' | Decimal.D7 d' | Decimal.D8 d' | Decimal.D9 d' =>
      S (uint_length d')
  end.

(** A line with the numbers of a sample line blanked. *)
Definition sample_erased (e : event) : event :=
  match e with
  | SampleLine _ _ => SampleLine "" ""
  | _ => e
  end.

(** What a cycle writes, numbers apart, for the outcome of its [fopen]. *)
Definition source_shape (g : globals) (source : option string) : list event :=
  match source with
  | None => [ErrorLine "Error" "Cannot open /proc/net/dev"]
  | Some contents =>
      match snapshot_of g contents with
      | [] => []
      | _ :: _ => [SampleLine "" ""]
      end
  end.

(** The rates of the matched pairs, in the order of the current
    entries. *)
Fixpoint matched_rates (g : globals) (prev curr : list interface_t)
  : list (Z * Z) :=
  match curr with
  | [] => []
  | c :: curr' =>
      match find_match c prev with
      | Some p =>
          (rate g (rx_bytes c) (rx_bytes p), rate g (tx_bytes c) (tx_bytes p))
          :: matched_rates g prev curr'
      | None => matched_rates g prev curr'
      end
  end.

Definition Zsum (l : list Z) : Z := foldr Z.add 0 l.

(** * Properties *)

(** ** Strings *)

Lemma string_compare_refl (a : string) : String.compare a a = Eq.
Proof.
  pose proof (String.compare_antisym a a) as H.
  destruct (String.compare a a); [reflexivity|discriminate..].
Qed.

Lemma strcmp_zero (a b : string) : (strcmp a b =? 0) = true <-> a = b.
Proof.
  unfold strcmp. split.
  - destruct (String.compare a b) eqn:E; [|discriminate..].
    intros _. apply String.compare_eq_iff, E.
  - intros ->. rewrite string_compare_refl. reflexivity.
Qed.

Lemma drop_prefix_spec (p s rest : string) :
  drop_prefix p s = Some rest <-> s = p ++ rest.
Proof.
  revert s. induction p as [|a p IH]; intros s; simpl.
  - split; intros H; congruence.
  - destruct s as [|b s].
    + split; intros H; discriminate.
    + destruct (Ascii.eqb_spec a b) as [->|Hne].
      * rewrite IH. split; intros H; congruence.
      * split; intros H; [discriminate|]. injection H as H _. congruence.
Qed.

Lemma filter_lookup_spec (n : string) (fs : list string) :
  filter_lookup n fs = true <-> n ∈ fs.
Proof.
  induction fs as [|f fs IH]; simpl.
  - rewrite elem_of_nil. split; [discriminate|tauto].
  - rewrite elem_of_cons.
    destruct (strcmp n f =? 0) eqn:E.
    + apply strcmp_zero in E. tauto.
    + rewrite IH. split; [tauto|]. intros [->|H]; [|exact H].
      assert ((strcmp f f =? 0) = true) by (apply strcmp_zero; reflexivity).
      congruence.
Qed.

(** ** The name pattern *)

Lemma anchored_search_fails (r : regex) (s : string) :
  rx_search_from (Cat Bol r) s = false.
Proof. induction s as [|c s IH]; simpl; [reflexivity|exact IH]. Qed.

Lemma anchored_alternatives (p1 p2 p3 p4 s : string) :
  rx_matches_at (Cat Bol (Alt (Lit p1) (Alt (Lit p2) (Alt (Lit p3) (Lit p4)))))
    (true, s)
  = has_prefix p1 s || has_prefix p2 s || has_prefix p3 s || has_prefix p4 s.
Proof.
  unfold rx_matches_at, has_prefix. cbn -[drop_prefix].
  destruct (drop_prefix p1 s), (drop_prefix p2 s), (drop_prefix p3 s),
    (drop_prefix p4 s); reflexivity.
Qed.

Lemma is_valid_interface_spec (n : string) :
  is_valid_interface n = true
  <-> exists p rest, p ∈ interface_prefixes /\ n = p ++ rest.
Proof.
  unfold is_valid_interface, regexec, interface_regex.
  rewrite anchored_search_fails, orb_false_r, anchored_alternatives.
  unfold interface_prefixes. split.
  - intros H. repeat (apply orb_prop in H as [H|H]);
      match type of H with
      | has_prefix ?p n = true =>
          unfold has_prefix in H;
          destruct (drop_prefix p n) as [rest|] eqn:E; [|discriminate];
          apply drop_prefix_spec in E; exists p, rest; split; [repeat constructor|exact E]
      end.
  - intros (p & rest & Hp & ->).
    assert (Hd : drop_prefix p (p ++ rest) = Some rest)
      by (apply drop_prefix_spec; reflexivity).
    repeat (apply elem_of_cons in Hp as [->|Hp]);
      [unfold has_prefix; rewrite Hd ..|]; rewrite ?orb_true_r; try reflexivity.
    apply elem_of_nil in Hp. destruct Hp.
Qed.

(** C7. The inclusion decision: with a non-empty filter list a name is
    included exactly when it equals an entry of the list (byte for byte,
    so case matters); without one, exactly when it starts with [eth],
    [wlan], [enp] or [wlp]. So [eth0] and [wlan0] are included and [lo]
    and [docker0] are not. *)
Theorem interface_selected_spec (g : globals) (n : string) :
  (interface_selected g n = true
   <-> match interface_filter g with
       | [] => exists p rest, p ∈ interface_prefixes /\ n = p ++ rest
       | _ :: _ => n ∈ interface_filter g
       end)
  /\ map (interface_selected (Globals 1 [])) ["eth0"; "wlan0"; "lo"; "docker0"]
     = [true; true; false; false]
  /\ map (interface_selected (Globals 1 ["eth0"])) ["eth0"; "ETH0"; "eth01"; "wlan0"]
     = [true; false; false; false].
Proof.
  split; [|split; reflexivity].
  unfold interface_selected, filter_count.
  destruct (interface_filter g) as [|f fs] eqn:E.
  - simpl. apply is_valid_interface_spec.
  - replace (0 <? Z.of_nat (length (f :: fs))) with true
      by (symmetry; apply Z.ltb_lt; simpl; lia).
    apply filter_lookup_spec.
Qed.

(** ** The snapshot reader *)

Lemma read_loop_monotone (g : globals) (lines : list string) :
  forall (arr : list interface_t) (c : Z),
    c <= (read_loop g lines arr c).2
    /\ ((read_loop g lines arr c).2 = c -> (read_loop g lines arr c).1 = arr).
Proof.
  induction lines as [|line rest IH]; intros arr c; simpl.
  - split; [lia|reflexivity].
  - destruct (c <? MAX_INTERFACES); [|simpl; split; [lia|reflexivity]].
    destruct (scan_line g line) as [e|].
    + destruct (IH (<[Z.to_nat c:=e]> arr) (c + 1)) as [Hle _].
      split; [lia|]. intros Heq. lia.
    + apply IH.
Qed.

Lemma read_loop_spec (g : globals) (lines : list string) :
  forall (arr : list interface_t) (c : nat),
    length arr = Z.to_nat MAX_INTERFACES ->
    (c <= Z.to_nat MAX_INTERFACES)%nat ->
    let kept := take (Z.to_nat MAX_INTERFACES - c) (omap (scan_line g) lines) in
    read_loop g lines arr (Z.of_nat c)
    = ((take c arr ++ kept ++ drop (c + length kept) arr)%list,
       Z.of_nat (c + length kept)).
Proof.
  induction lines as [|line rest IH]; intros arr c Hlen Hc; simpl.
  - rewrite take_nil. simpl. rewrite Nat.add_0_r, take_drop. reflexivity.
  - destruct (Z.ltb_spec (Z.of_nat c) MAX_INTERFACES) as [Hlt|Hge].
    + assert (Hc' : (c < Z.to_nat MAX_INTERFACES)%nat) by lia.
      destruct (scan_line g line) as [e|]; [|apply IH; assumption].
      rewrite Nat2Z.id.
      replace (Z.of_nat c + 1) with (Z.of_nat (S c)) by lia.
      rewrite IH by (rewrite ?length_insert; lia).
      replace (Z.to_nat MAX_INTERFACES - c)%nat
        with (S (Z.to_nat MAX_INTERFACES - S c)) by lia.
      simpl take at 3. simpl length.
      set (kept := take (Z.to_nat MAX_INTERFACES - S c) (omap (scan_line g) rest)).
      rewrite drop_insert_lt by lia.
      rewrite (take_S_r _ c e) by (apply list_lookup_insert_eq; lia).
      rewrite take_insert_ge by lia.
      rewrite <- app_assoc. simpl.
      rewrite !Nat.add_succ_r. reflexivity.
    + assert (c = Z.to_nat MAX_INTERFACES) as -> by lia.
      rewrite Nat.sub_diag, take_0. simpl length. simpl app.
      rewrite Nat.add_0_r, take_drop. reflexivity.
Qed.

(** C8. The reader keeps at most 32 entries: the entries that the lines
    after the two headers yield are stored in order from index 0, and only
    the first 32 of them; whatever follows in the source is ignored. *)
Theorem read_interfaces_cap (g : globals) (contents : string)
    (arr : list interface_t) :
  length arr = Z.to_nat MAX_INTERFACES ->
  let kept := take 32 (scanned g contents) in
  read_interfaces g (Some contents) arr
  = (Z.of_nat (length kept), (kept ++ drop (length kept) arr)%list, [])
  /\ (length kept <= 32)%nat.
Proof.
  intros Hlen kept. split.
  - unfold read_interfaces.
    pose proof (read_loop_spec g (drop 2 (fgets_lines contents)) arr 0 Hlen) as H.
    simpl in H. change (Z.of_nat 0) with 0 in H. rewrite H by lia.
    reflexivity.
  - subst kept. rewrite length_take. lia.
Qed.

Lemma read_interfaces_cap_witness :
  length zero_interfaces = Z.to_nat MAX_INTERFACES
  /\ (read_interfaces (Globals 1 []) (Some (dev_header ++ dev_lines 40 0))
        zero_interfaces).1.1 = 32
  /\ (length (take 32 (scanned (Globals 1 []) (dev_header ++ dev_lines 40 0))) <= 32)%nat.
Proof.
  split; [reflexivity|].
  destruct (read_interfaces_cap (Globals 1 []) (dev_header ++ dev_lines 40 0)
              zero_interfaces eq_refl) as [Heq Hle].
  split; [|exact Hle].
  rewrite Heq. vm_compute. reflexivity.
Defined.

(** ** The polling loop *)

Lemma read_interfaces_unchanged (g : globals) (source : option string)
    (arr : list interface_t) :
  (read_interfaces g source arr).1.1 <= 0 ->
  (read_interfaces g source arr).1.2 = arr
  /\ no_sample (read_interfaces g source arr).2.
Proof.
  destruct source as [contents|]; simpl; [|intros _; split; reflexivity].
  pose proof (read_loop_monotone g (drop 2 (fgets_lines contents)) arr 0) as [Hle Heq].
  destruct (read_loop g (drop 2 (fgets_lines contents)) arr 0) as [arr' c].
  simpl in *. intros Hc. split; [|reflexivity]. apply Heq. lia.
Qed.

Lemma read_interfaces_success (g : globals) (source : option string)
    (arr : list interface_t) :
  0 < (read_interfaces g source arr).1.1 ->
  (read_interfaces g source arr).2 = [].
Proof.
  destruct source as [contents|]; simpl; [|lia].
  destruct (read_loop g (drop 2 (fgets_lines contents)) arr 0). reflexivity.
Qed.

(** C3 (as the code has it). A cycle whose [fopen] fails changes nothing
    in the state and writes exactly one line, the error line
    [Error] / [Cannot open /proc/net/dev]; no sample line is written. *)
Theorem open_failure_cycle (g : globals) (st : state) :
  cycle g st None
  = (st, [ErrorLine "Error" "Cannot open /proc/net/dev"]).
Proof. destruct st. reflexivity. Qed.

(** C3, as stated, fails: after a good first read, a cycle whose open
    fails puts an error line on the output. *)
Lemma open_failure_is_reported :
  (main any_host no_args (Some dev_two) [None]).2
  = [ErrorLine "Error" "Cannot open /proc/net/dev"]
  /\ existsb is_error (main any_host no_args (Some dev_two) [None]).2 = true.
Proof. split; vm_compute; reflexivity. Qed.

(** C4. A cycle whose read fails or yields no interface leaves the whole
    state as it was, in particular the previous snapshot and its count,
    and writes no sample line; so the next cycle runs from the same
    state. *)
Theorem skipped_cycle_keeps_state (g : globals) (st : state)
    (source : option string) :
  (read_interfaces g source (curr_interfaces st)).1.1 <= 0 ->
  (cycle g st source).1 = st
  /\ prev_interfaces (cycle g st source).1 = prev_interfaces st
  /\ prev_count (cycle g st source).1 = prev_count st
  /\ no_sample (cycle g st source).2
  /\ forall next, cycle g (cycle g st source).1 next = cycle g st next.
Proof.
  intros Hc.
  destruct (read_interfaces_unchanged g source (curr_interfaces st) Hc)
    as [Harr Hout].
  assert (Hst : (cycle g st source).1 = st
                /\ no_sample (cycle g st source).2).
  { unfold cycle.
    destruct (read_interfaces g source (curr_interfaces st)) as [[c arr] out].
    simpl in *. subst arr.
    replace (c <=? 0) with true by (symmetry; apply Z.leb_le; exact Hc).
    destruct st; split; [reflexivity|exact Hout]. }
  destruct Hst as [Hst Hns]. rewrite Hst. repeat split; assumption.
Qed.

Lemma skipped_cycle_keeps_state_witness :
  (read_interfaces (Globals 1 []) (Some dev_header) zero_interfaces).1.1 <= 0
  /\ (cycle (Globals 1 []) (State zero_interfaces zero_interfaces 1)
        (Some dev_header)).1
     = State zero_interfaces zero_interfaces 1.
Proof.
  assert (H : (read_interfaces (Globals 1 []) (Some dev_header)
                 zero_interfaces).1.1 <= 0) by (vm_compute; discriminate).
  split; [exact H|].
  exact (proj1 (skipped_cycle_keeps_state (Globals 1 [])
                  (State zero_interfaces zero_interfaces 1) (Some dev_header) H)).
Defined.

(** C9. When the first read fails or yields no interface, [main] returns
    1 without running a cycle and without a sample line. *)
Theorem first_read_failure_exits (host : string -> bool) (cl : cmdline)
    (g : globals) (first : option string) (rest : list (option string)) :
  configure host cl = inl g ->
  (read_interfaces g first zero_interfaces).1.1 <= 0 ->
  main host cl first rest
  = (Exited 1, (read_interfaces g first zero_interfaces).2)
  /\ no_sample (main host cl first rest).2
  /\ main host cl first rest = main host cl first [].
Proof.
  intros Hcfg Hc.
  assert (H : forall l, main host cl first l
              = (Exited 1, (read_interfaces g first zero_interfaces).2)).
  { intros l. unfold main, run. rewrite Hcfg.
    destruct (read_interfaces g first zero_interfaces) as [[c arr] out].
    simpl in *.
    replace (c <=? 0) with true by (symmetry; apply Z.leb_le; exact Hc).
    reflexivity. }
  split; [apply H|]. split; [|rewrite !H; reflexivity].
  rewrite H. simpl.
  apply (read_interfaces_unchanged g first zero_interfaces Hc).
Qed.

Lemma first_read_failure_exits_witness :
  main any_host no_args None [Some dev_two; Some dev_one]
  = (Exited 1, [ErrorLine "Error" "Cannot open /proc/net/dev"])
  /\ main any_host no_args (Some dev_header) [Some dev_two; Some dev_one]
     = (Exited 1, []).
Proof.
  split.
  - refine (proj1 (first_read_failure_exits any_host no_args (Globals 1 [])
                     None _ eq_refl _)).
    vm_compute. discriminate.
  - refine (proj1 (first_read_failure_exits any_host no_args (Globals 1 [])
                     (Some dev_header) _ eq_refl _)).
    vm_compute. discriminate.
Defined.

Lemma cycle_prev_count (g : globals) (st : state) (source : option string) :
  1 <= prev_count st -> 1 <= prev_count (cycle g st source).1.
Proof.
  intros H. unfold cycle.
  destruct (read_interfaces g source (curr_interfaces st)) as [[c arr] out].
  destruct (Z.leb_spec c 0); simpl; lia.
Qed.

Lemma polling_loop_prev_count (g : globals) (sources : list (option string)) :
  forall st, 1 <= prev_count st -> 1 <= prev_count (polling_loop g st sources).1.
Proof.
  induction sources as [|source sources IH]; intros st H; simpl; [exact H|].
  pose proof (cycle_prev_count g st source H) as Hc.
  destruct (cycle g st source) as [st' out].
  specialize (IH st' Hc).
  destruct (polling_loop g st' sources) as [st'' out']. exact IH.
Qed.

Lemma successful_cycle_output (g : globals) (st : state) (source : option string) :
  1 <= prev_count st ->
  0 < (read_interfaces g source (curr_interfaces st)).1.1 ->
  exists rx_str tx_str, (cycle g st source).2 = [SampleLine rx_str tx_str].
Proof.
  intros Hp Hc.
  pose proof (read_interfaces_success g source (curr_interfaces st) Hc) as Hout.
  unfold cycle.
  destruct (read_interfaces g source (curr_interfaces st)) as [[c arr] out].
  simpl in *. subst out.
  replace (c <=? 0) with false by (symmetry; apply Z.leb_gt; exact Hc).
  replace (0 <? prev_count st) with true by (symmetry; apply Z.ltb_lt; lia).
  simpl. unfold calculate_and_output_rates.
  destruct (calculate_rates g (prev_interfaces st) arr c) as [rx tx].
  eexists _, _. reflexivity.
Qed.

(** C10. Whenever [main] is in its loop, after any number of cycles, the
    retained count is at least 1; hence a cycle whose read yields at
    least one interface writes exactly one line, a sample line. *)
Theorem prev_count_positive (host : string -> bool) (cl : cmdline)
    (first : option string) (rest : list (option string))
    (g : globals) (st : state) (out : list event) :
  main host cl first rest = (Polling g st, out) ->
  1 <= prev_count st
  /\ forall source,
       0 < (read_interfaces g source (curr_interfaces st)).1.1 ->
       exists rx_str tx_str, (cycle g st source).2 = [SampleLine rx_str tx_str].
Proof.
  intros Hmain.
  assert (Hp : 1 <= prev_count st).
  { unfold main in Hmain.
    destruct (configure host cl) as [g0|[status out0]]; [|discriminate].
    unfold run in Hmain.
    destruct (read_interfaces g0 first zero_interfaces) as [[c arr] out0].
    destruct (Z.leb_spec c 0) as [|Hc]; [discriminate|].
    pose proof (polling_loop_prev_count g0 rest (State arr zero_interfaces c)) as H.
    destruct (polling_loop g0 (State arr zero_interfaces c) rest) as [st' out'].
    injection Hmain as _ <- _. apply H. simpl. lia. }
  split; [exact Hp|].
  intros source. apply successful_cycle_output, Hp.
Qed.

Lemma prev_count_positive_witness :
  exists st out,
    main any_host no_args (Some dev_two) [Some dev_one; None] = (Polling (Globals 1 []) st, out)
    /\ 1 <= prev_count st.
Proof.
  eexists _, _. split; [vm_compute; reflexivity|].
  refine (proj1 (prev_count_positive any_host no_args (Some dev_two)
                   [Some dev_one; None] (Globals 1 []) _ _ _)).
  vm_compute. reflexivity.
Defined.

(** ** The rate calculator *)

Lemma rate_range (g : globals) (cur prv : Z) :
  1 <= polling_interval g -> 0 <= rate g cur prv < 2 ^ 64.
Proof.
  intros Hi. unfold rate, sub64, wrap64.
  pose proof (Z.mod_pos_bound (cur - prv) (2 ^ 64) ltac:(lia)) as Hm.
  split.
  - apply Z.div_pos; lia.
  - apply Z.div_lt_upper_bound; nia.
Qed.

(** C5. Every matched pair adds to each total the difference of the two
    counters, taken modulo [2^64], divided by the polling interval; a
    current counter below the previous one therefore gives the wrapped
    value [(2^64 - (previous - current)) / interval], not an error. For a
    single matched pair the totals are these two rates. *)
Theorem matched_pair_rate (g : globals) (n : string)
    (p_rx p_tx c_rx c_tx : Z) (prev_rest curr_rest : list interface_t) :
  1 <= polling_interval g ->
  0 <= p_rx < 2 ^ 64 -> 0 <= p_tx < 2 ^ 64 ->
  0 <= c_rx < 2 ^ 64 -> 0 <= c_tx < 2 ^ 64 ->
  (forall prev c curr totals p,
      find_match c prev = Some p ->
      sum_rates g prev (c :: curr) totals
      = sum_rates g prev curr
          (add64 totals.1 (((rx_bytes c - rx_bytes p) mod 2 ^ 64) / polling_interval g),
           add64 totals.2 (((tx_bytes c - tx_bytes p) mod 2 ^ 64) / polling_interval g)))
  /\ calculate_rates g (Interface n p_rx p_tx :: prev_rest)
       (Interface n c_rx c_tx :: curr_rest) 1
     = (((c_rx - p_rx) mod 2 ^ 64) / polling_interval g,
        ((c_tx - p_tx) mod 2 ^ 64) / polling_interval g)
  /\ (c_rx < p_rx ->
      rate g c_rx p_rx = (2 ^ 64 - (p_rx - c_rx)) / polling_interval g)
  /\ (c_tx < p_tx ->
      rate g c_tx p_tx = (2 ^ 64 - (p_tx - c_tx)) / polling_interval g).
Proof.
  intros Hi Hprx Hptx Hcrx Hctx.
  assert (Hwrap : forall c p, 0 <= p < 2 ^ 64 -> 0 <= c < 2 ^ 64 -> c < p ->
                    rate g c p = (2 ^ 64 - (p - c)) / polling_interval g).
  { intros c p Hp Hc Hlt. unfold rate, sub64, wrap64. f_equal.
    symmetry. apply (Z.mod_unique_pos _ _ (-1)); lia. }
  split; [|split; [|split; intros; apply Hwrap; assumption]].
  - intros prev c curr totals p Hm. simpl. rewrite Hm. reflexivity.
  - unfold calculate_rates. simpl.
    assert (Hn : (strcmp n n =? 0) = true) by (apply strcmp_zero; reflexivity).
    rewrite Hn. unfold add64, wrap64. simpl.
    pose proof (rate_range g c_rx p_rx Hi) as Hr.
    pose proof (rate_range g c_tx p_tx Hi) as Ht.
    unfold rate, sub64, wrap64 in Hr, Ht.
    rewrite !Z.mod_small by assumption. reflexivity.
Qed.

Lemma matched_pair_rate_witness :
  calculate_rates (Globals 2 []) [Interface "eth0" 1000 500]
    [Interface "eth0" 3000 1500] 1 = (1000, 500).
Proof.
  refine (proj1 (proj2 (matched_pair_rate (Globals 2 []) "eth0" 1000 500 3000 1500
                          [] [] _ _ _ _ _)));
    simpl; lia.
Defined.

(** What the code computes: the specification's calculation on the first
    [count] entries of both arrays, [count] being the current count. *)
Lemma calculate_rates_window (g : globals) (prev curr : list interface_t)
    (count : Z) :
  calculate_rates g prev curr count
  = spec_compute_rates g (take (Z.to_nat count) prev) (take (Z.to_nat count) curr).
Proof. reflexivity. Qed.

(** C1 (evaluation at the failing input). The previous snapshot holds
    [eth0] and [wlan0], the current one only [wlan0]. The search for
    [wlan0] is bounded by the current count, 1, so it stops after [eth0]:
    the totals are zero and the line printed is [0B 0B], where a search of
    the whole previous snapshot gives 1000 and 500. *)
Theorem previous_scan_bounded_by_current_count :
  let g := Globals 2 [] in
  let prev := (read_interfaces g (Some dev_two) zero_interfaces).1.2 in
  let curr := (read_interfaces g (Some dev_one) zero_interfaces).1.2 in
  (read_interfaces g (Some dev_two) zero_interfaces).1.1 = 2
  /\ (read_interfaces g (Some dev_one) zero_interfaces).1.1 = 1
  /\ take 2 prev = [Interface "eth0" 5000 700; Interface "wlan0" 1000 500]
  /\ take 1 curr = [Interface "wlan0" 3000 1500]
  /\ calculate_rates g prev curr 1 = (0, 0)
  /\ spec_compute_rates g (take 2 prev) (take 1 curr) = (1000, 500)
  /\ (main any_host (Cmdline "netspeed" [Opt_t "2"] []) (Some dev_two)
        [Some dev_one]).2 = [SampleLine "0B" "0B"].
Proof. repeat split; vm_compute; reflexivity. Qed.

(** The guard of line 193 on the unsigned interval rejects exactly the
    arguments whose value is zero modulo [2^32]. *)
Lemma interval_guard_unsigned (prog optarg : string)
    (opts : list getopt_result) (interval : Z) :
  parse_options prog (Opt_t optarg :: opts) interval
  = if wrap32 (atoi optarg) =? 0
    then inr (1, [ErrorLine optarg "Invalid polling interval"])
    else parse_options prog opts (wrap32 (atoi optarg)).
Proof.
  simpl. unfold wrap32.
  pose proof (Z.mod_pos_bound (atoi optarg) (2 ^ 32) ltac:(lia)) as H.
  destruct (Z.ltb_spec (atoi optarg mod 2 ^ 32) 1),
    (Z.eqb_spec (atoi optarg mod 2 ^ 32) 0); try reflexivity; lia.
Qed.

(** C2 (evaluation at the failing input). [-t -5]: [atoi] gives -5, the
    assignment to the unsigned interval stores 4294967291, the test
    [polling_interval < 1] is false, and [main] goes on to its loop with
    no error line. An argument of value zero is rejected. *)
Theorem negative_interval_accepted :
  atoi "-5" = -5
  /\ parse_options "netspeed" [Opt_t "-5"] 1 = inl 4294967291
  /\ (exists st,
        main any_host (Cmdline "netspeed" [Opt_t "-5"] []) (Some dev_two) []
        = (Polling (Globals 4294967291 []) st, []))
  /\ main any_host (Cmdline "netspeed" [Opt_t "0"] []) (Some dev_two) []
     = (Exited 1, [ErrorLine "0" "Invalid polling interval"])
  /\ main any_host (Cmdline "netspeed" [Opt_t "abc"] []) (Some dev_two) []
     = (Exited 1, [ErrorLine "abc" "Invalid polling interval"]).
Proof.
  split; [reflexivity|]. split; [reflexivity|].
  split; [eexists; vm_compute; reflexivity|].
  split; vm_compute; reflexivity.
Qed.

(** ** Binary64 arithmetic *)

Lemma digits2_pos_size (p : positive) : digits2_pos p = Pos.size p.
Proof. induction p as [p IH|p IH|]; simpl; congruence. Qed.

Lemma digits2_pos_bounds (p : positive) :
  2 ^ (Z.pos (digits2_pos p) - 1) <= Z.pos p < 2 ^ Z.pos (digits2_pos p).
Proof.
  rewrite digits2_pos_size. split.
  - pose proof (Pos.size_le p) as H.
    apply Pos2Z.pos_le_pos in H. rewrite Pos2Z.inj_pow in H.
    change (Z.pos p~0) with (2 * Z.pos p) in H.
    replace (Z.pos (Pos.size p)) with (Z.succ (Z.pos (Pos.size p) - 1)) in H by lia.
    rewrite Z.pow_succ_r in H by lia. lia.
  - pose proof (Pos.size_gt p) as H.
    apply Pos2Z.pos_lt_pos in H. rewrite Pos2Z.inj_pow in H. exact H.
Qed.

Lemma digits2_pos_unique (p : positive) (d : Z) :
  2 ^ (d - 1) <= Z.pos p < 2 ^ d -> Z.pos (digits2_pos p) = d.
Proof.
  intros [Hlo Hhi]. pose proof (digits2_pos_bounds p) as [Hlo' Hhi'].
  assert (0 < d).
  { destruct (Z.ltb_spec 0 d); [assumption|].
    assert (2 ^ d <= 2 ^ 0) by (destruct (Z.eq_dec d 0) as [->|]; [lia|rewrite Z.pow_neg_r by lia; lia]).
    simpl in *. lia. }
  destruct (Z.lt_trichotomy (Z.pos (digits2_pos p)) d) as [Hlt|[Heq|Hgt]];
    [|exact Heq|].
  - assert (2 ^ Z.pos (digits2_pos p) <= 2 ^ (d - 1))
      by (apply Z.pow_le_mono_r; lia). lia.
  - assert (2 ^ d <= 2 ^ (Z.pos (digits2_pos p) - 1))
      by (apply Z.pow_le_mono_r; lia). lia.
Qed.

Lemma Zdigits2_unique (m d : Z) :
  2 ^ (d - 1) <= m < 2 ^ d -> 0 < m -> Zdigits2 m = d.
Proof.
  intros H Hm. destruct m as [|p|p]; [lia| |lia].
  simpl. apply digits2_pos_unique, H.
Qed.

Lemma shr_m_of_loc (m : Z) (l : location) : shr_m (shr_record_of_loc m l) = m.
Proof. destruct l as [|[]]; reflexivity. Qed.

Lemma loc_of_record_of_loc (m : Z) (l : location) :
  loc_of_shr_record (shr_record_of_loc m l) = l.
Proof. destruct l as [|[]]; reflexivity. Qed.

Lemma shr_m_shr_1 (mrs : shr_record) :
  0 <= shr_m mrs -> shr_m (shr_1 mrs) = shr_m mrs / 2.
Proof.
  destruct mrs as [m r s]. simpl. intros Hm.
  destruct m as [|[p|p|]|p]; simpl; try reflexivity; try lia.
  - apply (Z.div_unique _ _ _ 1); lia.
  - apply (Z.div_unique _ _ _ 0); lia.
Qed.

Lemma round_nearest_even_range (m : Z) (l : location) :
  m <= round_nearest_even m l <= m + 1.
Proof. destruct l as [|[]]; simpl; try destruct (Z.even m); lia. Qed.

Lemma round_nearest_even_exact (m : Z) : round_nearest_even m loc_Exact = m.
Proof. reflexivity. Qed.

Lemma shr_fexp_53 (m e : Z) (l : location) :
  Zdigits2 m = 53 -> -1074 <= e ->
  shr_fexp prec emax m e l = (shr_record_of_loc m l, e).
Proof.
  intros Hd He. unfold shr_fexp, fexp, emin, prec, emax. rewrite Hd.
  replace (Z.max (53 + e - 53) (3 - 1024 - 53) - e) with 0 by lia.
  reflexivity.
Qed.

Lemma shr_fexp_54 (m e : Z) (l : location) :
  Zdigits2 m = 54 -> -1075 <= e ->
  shr_fexp prec emax m e l = (shr_1 (shr_record_of_loc m l), e + 1).
Proof.
  intros Hd He. unfold shr_fexp, fexp, emin, prec, emax. rewrite Hd.
  replace (Z.max (54 + e - 53) (3 - 1024 - 53) - e) with 1 by lia.
  reflexivity.
Qed.

Lemma binary_round_aux_eq (sx : bool) (mx ex : Z) (lx : location) :
  binary_round_aux prec emax sx mx ex lx
  = round_finish sx
      (round_nearest_even (shr_m (shr_fexp prec emax mx ex lx).1)
         (loc_of_shr_record (shr_fexp prec emax mx ex lx).1))
      (shr_fexp prec emax mx ex lx).2.
Proof.
  unfold binary_round_aux, round_finish.
  destruct (shr_fexp prec emax mx ex lx) as [mrs e]. reflexivity.
Qed.

Lemma round_finish_spec (m0 e0 : Z) (l : location) :
  2 ^ 52 <= m0 < 2 ^ 53 -> -1074 <= e0 <= 960 ->
  exists m e,
    round_finish false (round_nearest_even m0 l) e0 = S754_finite false m e
    /\ 2 ^ 52 <= Z.pos m < 2 ^ 53
    /\ e0 <= e <= e0 + 1
    /\ m0 <= Z.pos m * 2 ^ (e - e0) <= m0 + 1
    /\ (l = loc_Exact -> Z.pos m = m0 /\ e = e0).
Proof.
  intros Hm He. unfold round_finish.
  pose proof (round_nearest_even_range m0 l) as Hr.
  pose proof (round_nearest_even_exact m0) as Hx.
  set (m1 := round_nearest_even m0 l) in *.
  destruct (Z.ltb_spec m1 (2 ^ 53)) as [Hlt|Hge].
  - rewrite shr_fexp_53 by (try apply Zdigits2_unique; lia).
    rewrite shr_m_of_loc.
    destruct m1 as [|p|p] eqn:E; [lia| |lia].
    replace (e0 <=? emax - prec) with true
      by (symmetry; apply Z.leb_le; unfold emax, prec; lia).
    exists p, e0. rewrite Z.sub_diag, Z.mul_1_r.
    split; [reflexivity|]. split; [lia|]. split; [lia|]. split; [lia|].
    intros ->. subst m1. rewrite Hx in E. lia.
  - assert (Hm1 : m1 = 2 ^ 53) by lia.
    rewrite Hm1.
    rewrite shr_fexp_54 by (try apply Zdigits2_unique; lia).
    simpl shr_m.
    replace (e0 + 1 <=? emax - prec) with true
      by (symmetry; apply Z.leb_le; unfold emax, prec; lia).
    eexists _, (e0 + 1). split; [reflexivity|].
    replace (e0 + 1 - e0) with 1 by lia.
    split; [lia|]. split; [lia|]. split; [lia|].
    intros ->. subst m1. rewrite Hx in Hm1. lia.
Qed.

(** Rounding a quotient of 53 or 54 significant bits: the result is a
    normal number within two units of the last place of the quotient. *)
Lemma binary_round_aux_spec (mx ex : Z) (lx : location) :
  2 ^ 52 <= mx < 2 ^ 54 -> -1074 <= ex <= 950 ->
  exists m e,
    binary_round_aux prec emax false mx ex lx = S754_finite false m e
    /\ 2 ^ 52 <= Z.pos m < 2 ^ 53
    /\ ex <= e <= ex + 2
    /\ mx - 1 <= Z.pos m * 2 ^ (e - ex) <= mx + 2
    /\ (mx < 2 ^ 53 -> lx = loc_Exact -> Z.pos m = mx /\ e = ex).
Proof.
  intros Hm He. rewrite binary_round_aux_eq.
  destruct (Z.ltb_spec mx (2 ^ 53)) as [Hlt|Hge].
  - rewrite shr_fexp_53 by (try apply Zdigits2_unique; lia).
    simpl fst. simpl snd. rewrite shr_m_of_loc, loc_of_record_of_loc.
    destruct (round_finish_spec mx ex lx) as (m & e & Heq & Hb & Hde & Hv & Hx);
      [lia..|].
    exists m, e. split; [exact Heq|]. split; [exact Hb|].
    split; [lia|]. split; [lia|]. intros _. exact Hx.
  - rewrite shr_fexp_54 by (try apply Zdigits2_unique; lia).
    simpl fst. simpl snd.
    set (mrs := shr_1 (shr_record_of_loc mx lx)).
    assert (Hhalf : shr_m mrs = mx / 2).
    { unfold mrs. rewrite shr_m_shr_1; rewrite shr_m_of_loc; [reflexivity|lia]. }
    rewrite Hhalf.
    assert (Hq : 2 ^ 52 <= mx / 2 < 2 ^ 53).
    { split; [apply Z.div_le_lower_bound|apply Z.div_lt_upper_bound]; lia. }
    destruct (round_finish_spec (mx / 2) (ex + 1) (loc_of_shr_record mrs))
      as (m & e & Heq & Hb & Hde & Hv & _); [lia..|].
    exists m, e. split; [exact Heq|]. split; [exact Hb|]. split; [lia|].
    split; [|lia].
    replace (e - ex) with (e - (ex + 1) + 1) by lia.
    rewrite Z.pow_add_r by lia.
    pose proof (Z.div_mod mx 2 ltac:(lia)) as Hdm.
    pose proof (Z.mod_pos_bound mx 2 ltac:(lia)) as Hmod.
    change (2 ^ 1) with 2. lia.
Qed.

Lemma pos_iter_xO (p k : positive) :
  Z.pos (Pos.iter xO p k) = Z.pos p * 2 ^ Z.pos k.
Proof.
  induction k as [|k IH] using Pos.peano_ind.
  - simpl. lia.
  - rewrite Pos.iter_succ, Pos2Z.inj_succ, Z.pow_succ_r by lia.
    rewrite Pos2Z.inj_xO, IH. lia.
Qed.

(** The conversion of an integer below [2^52] is exact. *)
Lemma double_of_ull_exact (b d : Z) :
  2 ^ (d - 1) <= b < 2 ^ d -> 1 <= d <= 52 ->
  exists m, double_of_ull b = S754_finite false m (d - 53)
            /\ Z.pos m = b * 2 ^ (53 - d).
Proof.
  intros Hb Hd.
  assert (0 < 2 ^ (d - 1)) by (apply Z.pow_pos_nonneg; lia).
  destruct b as [|p|p]; [lia| |lia].
  pose proof (digits2_pos_unique p d Hb) as Hp.
  unfold double_of_ull, binary_normalize, binary_round.
  rewrite Hp. unfold fexp, emin, shl_align, prec, emax.
  replace (Z.max (d + 0 - 53) (3 - 1024 - 53) - 0) with (d - 53) by lia.
  replace (Z.max (d + 0 - 53) (3 - 1024 - 53)) with (d - 53) by lia.
  destruct (d - 53) as [|k|k] eqn:E; [lia|lia|].
  assert (Hk : Z.pos k = 53 - d) by lia.
  assert (Hm : Z.pos (Pos.iter xO p k) = Z.pos p * 2 ^ (53 - d))
    by (rewrite pos_iter_xO, Hk; reflexivity).
  assert (Hpow : 2 ^ (d - 1) * 2 ^ (53 - d) = 2 ^ 52
                 /\ 2 ^ d * 2 ^ (53 - d) = 2 ^ 53).
  { rewrite <- !Z.pow_add_r by lia. split; f_equal; lia. }
  assert (0 < 2 ^ (53 - d)) by (apply Z.pow_pos_nonneg; lia).
  destruct (binary_round_aux_spec (Z.pos (Pos.iter xO p k)) (Z.neg k) loc_Exact)
    as (m & e & Heq & _ & _ & _ & Hx); [nia|lia|].
  destruct Hx as [Hxm Hxe]; [nia|reflexivity|].
  exists m. fold prec emax. rewrite Heq, Hxe. split; [reflexivity|].
  rewrite Hxm. exact Hm.
Qed.

Lemma d1000_eq : d1000 = S754_finite false 8796093022208000 (-43).
Proof. vm_compute. reflexivity. Qed.

(** The quotient of two positive normal numbers: a normal number within
    two units of the last place of the exact quotient. *)
Lemma double_div_spec (mx my : positive) (ex ey : Z) :
  2 ^ 52 <= Z.pos mx < 2 ^ 53 -> 2 ^ 52 <= Z.pos my < 2 ^ 53 ->
  -1021 <= ex - ey <= 1000 ->
  exists m e,
    double_div (S754_finite false mx ex) (S754_finite false my ey)
    = S754_finite false m e
    /\ 2 ^ 52 <= Z.pos m < 2 ^ 53
    /\ ex - ey - 53 <= e <= ex - ey - 51
    /\ (Z.pos mx * 2 ^ 53) / Z.pos my - 1
       <= Z.pos m * 2 ^ (e - (ex - ey - 53))
       <= (Z.pos mx * 2 ^ 53) / Z.pos my + 2.
Proof.
  intros Hx Hy He.
  unfold double_div, SFdiv, SFdiv_core_binary. simpl xorb.
  rewrite (Zdigits2_unique (Z.pos mx) 53), (Zdigits2_unique (Z.pos my) 53) by lia.
  unfold fexp, emin, prec, emax.
  replace (Z.min (Z.max (53 + ex - (53 + ey) - 53) (3 - 1024 - 53)) (ex - ey))
    with (ex - ey - 53) by lia.
  replace (ex - ey - (ex - ey - 53)) with 53 by lia.
  rewrite Z.shiftl_mul_pow2 by lia.
  pose proof (Z.div_mod (Z.pos mx * 2 ^ 53) (Z.pos my) ltac:(lia)) as Hdm.
  pose proof (Z.mod_pos_bound (Z.pos mx * 2 ^ 53) (Z.pos my) ltac:(lia)) as Hmod.
  unfold Z.div, Z.modulo in *.
  destruct (Z.div_eucl (Z.pos mx * 2 ^ 53) (Z.pos my)) as [q r].
  destruct (binary_round_aux_spec q (ex - ey - 53) (new_location (Z.pos my) r))
    as (m & e & Heq & Hb & Hde & Hv & _); [nia|lia|].
  exists m, e. split; [exact Heq|]. repeat split; lia.
Qed.

(** Comparison of positive normal numbers is that of their exponents,
    then of their mantissas. *)
Lemma double_ge_true (m1 m2 : positive) (e1 e2 : Z) :
  e2 < e1 \/ (e2 = e1 /\ Z.pos m2 <= Z.pos m1) ->
  double_ge (S754_finite false m1 e1) (S754_finite false m2 e2) = true.
Proof.
  intros H. unfold double_ge, SFleb, SFcompare.
  destruct (Z.compare_spec e2 e1) as [Heq|Hlt|Hgt]; [|reflexivity|lia].
  change (Pos.compare_cont Eq m2 m1) with (Pos.compare m2 m1).
  destruct (Pos.compare_spec m2 m1); [reflexivity|reflexivity|lia].
Qed.

Lemma double_ge_false (m1 m2 : positive) (e1 e2 : Z) :
  e1 < e2 \/ (e1 = e2 /\ Z.pos m1 < Z.pos m2) ->
  double_ge (S754_finite false m1 e1) (S754_finite false m2 e2) = false.
Proof.
  intros H. unfold double_ge, SFleb, SFcompare.
  destruct (Z.compare_spec e2 e1) as [Heq|Hlt|Hgt]; [|lia|reflexivity].
  change (Pos.compare_cont Eq m2 m1) with (Pos.compare m2 m1).
  destruct (Pos.compare_spec m2 m1); [lia|lia|reflexivity].
Qed.

(** [round_tenths] is within a half of ten times the binary value. *)
Lemma round_tenths_near (m : positive) (e : Z) :
  e < 0 ->
  - 2 ^ (- e) <= 2 * (round_tenths m e * 2 ^ (- e) - 10 * Z.pos m) <= 2 ^ (- e).
Proof.
  intros He. unfold round_tenths.
  replace (0 <=? e) with false by (symmetry; apply Z.leb_gt; exact He).
  assert (HD : 0 < 2 ^ (- e)) by (apply Z.pow_pos_nonneg; lia).
  set (D := 2 ^ (- e)) in *.
  pose proof (Z.div_mod (10 * Z.pos m) D ltac:(lia)) as Hdm.
  pose proof (Z.mod_pos_bound (10 * Z.pos m) D HD) as Hmod.
  set (q := 10 * Z.pos m / D) in *. set (r := (10 * Z.pos m) mod D) in *.
  destruct (Z.compare_spec (2 * r) D); [destruct (Z.even q)| |]; nia.
Qed.

(** For a count in the kilo range the loop runs once: the value printed
    is the quotient by 1000, and its tenths are those of [b / 1000]. *)
Lemma kilo_scaled (b : Z) :
  1000 <= b < 1000000 ->
  exists m e,
    scale_units (double_of_ull b) "B" ["K"; "M"; "G"; "T"; "P"]
    = (S754_finite false m e, "K")
    /\ -50 <= 100 * round_tenths m e - b <= 50.
Proof.
  intros Hb.
  pose proof (Z.log2_spec b ltac:(lia)) as Hl.
  assert (HL : 9 <= Z.log2 b <= 19).
  { split; [change 9 with (Z.log2 1000)|change 19 with (Z.log2 999999)];
      apply Z.log2_le_mono; lia. }
  destruct (double_of_ull_exact b (Z.log2 b + 1)) as (mb & Hdb & Hmb);
    [replace (Z.log2 b + 1 - 1) with (Z.log2 b) by lia; exact Hl|lia|].
  destruct (double_div_spec mb 8796093022208000 (Z.log2 b + 1 - 53) (-43))
    as (m & e & Hdiv & Hcan & He & Hq).
  { rewrite Hmb. clear -Hl HL.
    assert (2 ^ Z.log2 b * 2 ^ (53 - (Z.log2 b + 1)) = 2 ^ 52)
      by (rewrite <- Z.pow_add_r by lia; f_equal; lia).
    assert (2 ^ Z.succ (Z.log2 b) * 2 ^ (53 - (Z.log2 b + 1)) = 2 ^ 53)
      by (rewrite <- Z.pow_add_r by lia; f_equal; lia).
    assert (0 < 2 ^ (53 - (Z.log2 b + 1))) by (apply Z.pow_pos_nonneg; lia).
    nia. }
  { lia. }
  { lia. }
  pose proof (Z.div_mod (Z.pos mb * 2 ^ 53) 8796093022208000 ltac:(lia)) as Hdm.
  pose proof (Z.mod_pos_bound (Z.pos mb * 2 ^ 53) 8796093022208000 ltac:(lia)) as Hmod.
  set (Q := Z.pos mb * 2 ^ 53 / 8796093022208000) in *.
  set (R := (Z.pos mb * 2 ^ 53) mod 8796093022208000) in *.
  exists m, e. simpl scale_units.
  rewrite Hdb, d1000_eq, Hdiv.
  remember (Z.log2 b) as L eqn:HeqL. clear HeqL Hl Hdb Hdiv.
  assert (Hk : e = L + 1 - 53 - -43 - 53 \/ e = L + 1 - 53 - -43 - 53 + 1
               \/ e = L + 1 - 53 - -43 - 53 + 2) by lia.
  assert (HLs : L = 9 \/ L = 10 \/ L = 11 \/ L = 12 \/ L = 13 \/ L = 14 \/ L = 15
                \/ L = 16 \/ L = 17 \/ L = 18 \/ L = 19) by lia.
  repeat (destruct HLs as [->|HLs]); try subst L.
  all: repeat (destruct Hk as [->|Hk]); try subst e.
  all: simpl in Hmb, Hq.
  all: rewrite double_ge_true by (simpl; lia).
  all: rewrite double_ge_false by (simpl; lia).
  all: split; [reflexivity|].
  all: match goal with
       | |- context [round_tenths ?m' ?e'] =>
           pose proof (round_tenths_near m' e' ltac:(simpl; lia)) as Hr;
           simpl in Hr
       end.
  all: lia.
Qed.

(** ** Decimal rendering *)

Lemma string_app_assoc (s1 s2 s3 : string) :
  (s1 ++ s2) ++ s3 = s1 ++ s2 ++ s3.
Proof. induction s1 as [|c s1 IH]; simpl; [reflexivity|rewrite IH; reflexivity]. Qed.

Lemma Zrange_forallb_nat (f : Z -> bool) (n : nat) :
  forall lo, forallb f (Zrange lo n) = true ->
             forall z, lo <= z < lo + Z.of_nat n -> f z = true.
Proof.
  induction n as [|n IH]; intros lo H z Hz; [lia|].
  simpl in H. apply andb_prop in H as [Hlo Hrest].
  destruct (Z.eq_dec z lo) as [->|Hne]; [exact Hlo|].
  apply (IH (lo + 1) Hrest). lia.
Qed.

Lemma Zrange_forallb (f : Z -> bool) (lo len : Z) :
  forallb f (Zrange lo (Z.to_nat len)) = true ->
  forall z, lo <= z < lo + len -> f z = true.
Proof.
  intros H z Hz. apply (Zrange_forallb_nat f (Z.to_nat len) lo H). lia.
Qed.

Lemma small_text_all : forallb small_text_ok (Zrange 0 (Z.to_nat 1000)) = true.
Proof. vm_compute. reflexivity. Qed.

Lemma tenths_text_all :
  forallb tenths_text_ok (Zrange 0 (Z.to_nat 10001)) = true.
Proof. vm_compute. reflexivity. Qed.

(** C6. A count below 1000 is printed as its decimal digits followed by
    [B], with no decimal point. A count [b] from 1000 up to, but not
    including, 1000000 is printed as an integer part, a point, one digit
    and [K], where the number printed, [q / 10], is a nearest multiple of
    one tenth to [b / 1000] (that is, [|100 q - b| <= 50]). In particular
    1000 gives [1.0K] and 999 gives [999B]. *)
Theorem format_small_and_kilo (b : Z) :
  (0 <= b < 1000 ->
   format_human_readable b = string_of_Z b ++ "B"
   /\ all_digits (string_of_Z b) = true)
  /\ (1000 <= b < 1000000 ->
      exists q,
        format_human_readable b
        = string_of_Z (q / 10) ++ "." ++ string_of_Z (q mod 10) ++ "K"
        /\ Z.abs (100 * q - b) <= 50
        /\ all_digits (string_of_Z (q / 10)) = true
        /\ all_digits (string_of_Z (q mod 10)) = true
        /\ String.length (string_of_Z (q mod 10)) = 1%nat)
  /\ format_human_readable 1000 = "1.0K"
  /\ format_human_readable 999 = "999B".
Proof.
  split; [|split; [|split; vm_compute; reflexivity]].
  - intros Hb.
    pose proof (Zrange_forallb small_text_ok 0 1000 small_text_all b ltac:(lia)) as H.
    unfold small_text_ok in H. apply andb_prop in H as [Ht Hd].
    apply String.eqb_eq in Ht.
    split; [|exact Hd].
    unfold format_human_readable, units, DECIMAL_BASE.
    replace (b <? 1000) with true by (symmetry; apply Z.ltb_lt; lia).
    exact Ht.
  - intros Hb.
    destruct (kilo_scaled b Hb) as (m & e & Hs & Hq).
    set (q := round_tenths m e) in *.
    pose proof (Zrange_forallb tenths_text_ok 0 10001 tenths_text_all q ltac:(lia)) as H.
    unfold tenths_text_ok in H.
    apply andb_prop in H as [H Hlen]. apply andb_prop in H as [H Hfrac].
    apply andb_prop in H as [Ht Hint].
    apply String.eqb_eq in Ht. apply Nat.eqb_eq in Hlen.
    exists q. split; [|split; [lia|repeat split; assumption]].
    unfold format_human_readable, units, DECIMAL_BASE.
    replace (b <? 1000) with false by (symmetry; apply Z.ltb_ge; lia).
    rewrite Hs. unfold printf_1f. fold q. simpl sign_string.
    unfold tenths_text in Ht.
    replace ("" ++ string_of_Z (q / 10) ++ "." ++ string_of_Z (q mod 10))
      with (string_of_Z (q / 10) ++ "." ++ string_of_Z (q mod 10))
      by reflexivity.
    rewrite Ht, !string_app_assoc. reflexivity.
Qed.

Lemma format_small_and_kilo_witness :
  format_human_readable 640 = "640B"
  /\ exists q, format_human_readable 123456
                 = string_of_Z (q / 10) ++ "." ++ string_of_Z (q mod 10) ++ "K"
               /\ Z.abs (100 * q - 123456) <= 50.
Proof.
  split.
  - exact (proj1 (proj1 (format_small_and_kilo 640) ltac:(lia))).
  - destruct (proj1 (proj2 (format_small_and_kilo 123456)) ltac:(lia))
      as (q & Hf & Hq & _).
    exists q. split; assumption.
Defined.

(** Further values: the larger units, the ties (decided by the binary
    value of the quotient) and the top of the kilo range. *)
Lemma format_examples :
  map format_human_readable
    [1500000; 1000000000000; 1050; 1250; 1350; 1450; 999949; 999950; 999999]
  = ["1.5M"; "1.0T"; "1.1K"; "1.2K"; "1.4K"; "1.4K"; "999.9K"; "1000.0K";
     "1000.0K"].
Proof. vm_compute. reflexivity. Qed.

(** * Further properties *)

(** ** Decimal numerals *)

Lemma string_app_nil_r (s : string) : s ++ "" = s.
Proof. induction s as [|c s IH]; simpl; [reflexivity|rewrite IH; reflexivity]. Qed.

Lemma scan_digits_stop (acc : Z) (rest : string) :
  starts_with_digit rest = false -> scan_digits acc rest = (acc, rest).
Proof. destruct rest as [|c rest]; simpl; [reflexivity|intros ->; reflexivity]. Qed.

Lemma scan_digits_uint (d : Decimal.uint) :
  forall (acc : Z) (rest : string),
    starts_with_digit rest = false ->
    scan_digits acc (NilEmpty.string_of_uint d ++ rest) = (uint_value acc d, rest).
Proof.
  induction d as [|d IH|d IH|d IH|d IH|d IH|d IH|d IH|d IH|d IH|d IH];
    intros acc rest Hrest;
    [apply scan_digits_stop, Hrest|..];
    cbn [NilEmpty.string_of_uint String.append scan_digits uint_value];
    match goal with
    | |- (if isdigit ?c then _ else _) = _ =>
        change (isdigit c) with true; cbv iota;
        rewrite IH by exact Hrest; do 2 f_equal;
        let v := eval vm_compute in (digit_value c) in
        change (digit_value c) with v; lia
    end.
Qed.

Lemma uint_value_of_uint_acc (d : Decimal.uint) :
  forall acc, Z.pos (Pos.of_uint_acc d acc) = uint_value (Z.pos acc) d.
Proof.
  induction d as [|d IH|d IH|d IH|d IH|d IH|d IH|d IH|d IH|d IH|d IH];
    intros acc; simpl; [reflexivity|rewrite IH; f_equal; lia..].
Qed.

Lemma uint_value_of_uint (d : Decimal.uint) :
  Z.of_N (Pos.of_uint d) = uint_value 0 d.
Proof.
  induction d as [|d IH|d IH|d IH|d IH|d IH|d IH|d IH|d IH|d IH|d IH];
    simpl; [reflexivity|exact IH|apply uint_value_of_uint_acc..].
Qed.

Lemma uint_value_to_uint (n : N) : uint_value 0 (N.to_uint n) = Z.of_N n.
Proof.
  rewrite <- uint_value_of_uint. change (Pos.of_uint (N.to_uint n)) with (N.of_uint (N.to_uint n)).
  rewrite DecimalN.Unsigned.of_to. reflexivity.
Qed.

(** Reading back the decimal text of [v]. *)
Lemma scan_digits_string_of_Z (v : Z) (rest : string) :
  0 <= v -> starts_with_digit rest = false ->
  scan_digits 0 (string_of_Z v ++ rest) = (v, rest).
Proof.
  intros Hv Hrest. unfold string_of_Z.
  pose proof (uint_value_to_uint (Z.to_N v)) as Hval.
  rewrite Z2N.id in Hval by exact Hv.
  destruct (N.to_uint (Z.to_N v)) as [|d|d|d|d|d|d|d|d|d|d] eqn:E;
    unfold NilZero.string_of_uint;
    [simpl in Hval; subst v; simpl; rewrite scan_digits_stop by exact Hrest;
     reflexivity|..];
    rewrite scan_digits_uint by exact Hrest; rewrite Hval; reflexivity.
Qed.


Lemma string_of_Z_head (v : Z) :
  exists c s,
    string_of_Z v = String c s
    /\ isdigit c = true /\ isspace c = false
    /\ scan_sign (String c s) = (false, String c s).
Proof.
  unfold string_of_Z.
  destruct (N.to_uint (Z.to_N v)); simpl; eexists _, _; repeat split; reflexivity.
Qed.

(** [atoi] reads back the decimal text of an [int]. *)
Lemma atoi_string_of_Z (n : Z) :
  0 <= n < 2 ^ 31 -> atoi (string_of_Z n) = n.
Proof.
  intros Hn. unfold atoi, strtol.
  destruct (string_of_Z_head n) as (c & s & Heq & _ & Hsp & Hsign).
  pose proof (scan_digits_string_of_Z n "" ltac:(lia) eq_refl) as Hd.
  rewrite string_app_nil_r, Heq in Hd. rewrite Heq.
  cbn [skip_spaces]. rewrite Hsp, Hsign, Hd.
  unfold to_int, LONG_MIN, LONG_MAX.
  rewrite Z.min_r, Z.max_r by lia.
  rewrite Z.mod_small by lia. lia.
Qed.

(** ** The lines of the counter source *)





Lemma split_at_colon_none (s : string) :
  colon_free s = true -> split_at_colon s = None.
Proof.
  unfold colon_free. induction s as [|c s IH]; simpl; [reflexivity|].
  intros H. apply andb_prop in H as [Hc Hs].
  destruct (Ascii.eqb c ":"); [discriminate|]. rewrite IH by exact Hs. reflexivity.
Qed.



Lemma truncate_length (k : nat) (s : string) :
  (String.length (truncate k s) <= k)%nat.
Proof.
  unfold truncate. revert s.
  induction k as [|k IH]; intros [|c s]; simpl; try lia.
  specialize (IH s). lia.
Qed.

Lemma truncate_idem (k : nat) (s : string) :
  truncate k (truncate k s) = truncate k s.
Proof.
  unfold truncate. revert s.
  induction k as [|k IH]; intros [|c s]; simpl; try reflexivity.
  rewrite IH. reflexivity.
Qed.



(** X7. A line with no colon is skipped, whatever else it holds. *)
Theorem scan_line_without_colon (g : globals) (line : string) :
  colon_free line = true -> scan_line g line = None.
Proof.
  intros H. unfold scan_line. rewrite split_at_colon_none by exact H. reflexivity.
Qed.

Lemma scan_line_without_colon_witness :
  scan_line (Globals 1 []) "eth0 1 2 3 4 5 6 7 8 9 10 11 12 13 14 15 16" = None.
Proof.
  exact (scan_line_without_colon (Globals 1 [])
           "eth0 1 2 3 4 5 6 7 8 9 10 11 12 13 14 15 16" eq_refl).
Defined.

Lemma digit_value_nonneg (c : ascii) : isdigit c = true -> 0 <= digit_value c <= 9.
Proof.
  unfold isdigit, digit_value. intros H. apply andb_prop in H as [H1 H2].
  apply Nat.leb_le in H1, H2. lia.
Qed.

Lemma scan_digits_nonneg (s : string) :
  forall acc, 0 <= acc -> 0 <= (scan_digits acc s).1.
Proof.
  induction s as [|c s IH]; intros acc Hacc; simpl; [exact Hacc|].
  destruct (isdigit c) eqn:E; [|exact Hacc].
  apply IH. pose proof (digit_value_nonneg c E). lia.
Qed.

Lemma scan_llu_range (s : string) (v : Z) (rest : string) :
  scan_llu s = Some (v, rest) -> in_u64 v.
Proof.
  unfold scan_llu.
  destruct (scan_sign (skip_spaces s)) as [neg s2].
  destruct (starts_with_digit s2); [|discriminate].
  pose proof (scan_digits_nonneg s2 0 ltac:(lia)) as Hd.
  destruct (scan_digits 0 s2) as [d r]. simpl in Hd.
  intros [= <- _]. unfold in_u64, ULLONG_MAX, wrap64.
  destruct (Z.ltb_spec (2 ^ 64 - 1) d); [lia|].
  destruct neg; [|lia].
  apply Z.mod_pos_bound. lia.
Qed.

Lemma sscanf_llu_range (n : nat) :
  forall s, Forall in_u64 (sscanf_llu n s).
Proof.
  induction n as [|n IH]; intros s; simpl; [constructor|].
  destruct (scan_llu s) as [[v rest]|] eqn:E; [|constructor].
  constructor; [exact (scan_llu_range s v rest E)|apply IH].
Qed.

Lemma nth_in_u64 (vs : list Z) (i : nat) :
  Forall in_u64 vs -> in_u64 (nth i vs 0).
Proof.
  intros H. revert i. induction H as [|v vs Hv _ IH]; intros [|i]; simpl;
    try (unfold in_u64; lia); [exact Hv|apply IH].
Qed.

Lemma scan_line_entry (g : globals) (line : string) (e : interface_t) :
  scan_line g line = Some e -> well_formed_entry g e.
Proof.
  unfold scan_line.
  destruct (split_at_colon line) as [[before data]|]; [|discriminate].
  destruct (interface_selected g (strip_blanks before)) eqn:Hsel; [|discriminate].
  destruct (Z.of_nat (length (sscanf_llu 16 data)) =? 16); [|discriminate].
  intros [= <-]. unfold well_formed_entry. simpl.
  pose proof (sscanf_llu_range 16 data) as Hr.
  split; [apply truncate_length|].
  split; [apply nth_in_u64, Hr|]. split; [apply nth_in_u64, Hr|].
  exists (strip_blanks before). split; [exact Hsel|apply truncate_idem].
Qed.

(** X5. Every entry that a read stores has a name of at most 15
    characters, which is the 15-character prefix of a name that passed
    the inclusion test, and counters within [unsigned long long]. *)
Theorem stored_entries_well_formed (g : globals) (contents : string)
    (arr : list interface_t) (e : interface_t) :
  length arr = Z.to_nat MAX_INTERFACES ->
  e ∈ take (Z.to_nat (read_interfaces g (Some contents) arr).1.1)
        (read_interfaces g (Some contents) arr).1.2 ->
  well_formed_entry g e.
Proof.
  intros Hlen. unfold read_interfaces.
  pose proof (read_loop_spec g (drop 2 (fgets_lines contents)) arr 0 Hlen
                ltac:(lia)) as H.
  change (Z.of_nat 0) with 0 in H. simpl in H. rewrite H. clear H. simpl.
  rewrite Nat2Z.id, take_app_length.
  intros He. apply elem_of_take in He as (i & He & _).
  apply list_elem_of_lookup_2 in He.
  apply list_elem_of_omap in He as (line & _ & Hline).
  exact (scan_line_entry g line e Hline).
Qed.

Lemma stored_entries_well_formed_witness :
  well_formed_entry (Globals 1 []) (Interface "wlan0" 1000 500).
Proof.
  refine (stored_entries_well_formed (Globals 1 []) dev_two zero_interfaces
            (Interface "wlan0" 1000 500) eq_refl _).
  vm_compute. repeat constructor.
Defined.

(** X4. A [-t] argument that is the decimal text of a number from 1 to
    2147483647 is accepted and sets the interval to that number; when the
    option is repeated, the last one counts. *)
Theorem decimal_interval_accepted (prog : string) (n : Z)
    (opts : list getopt_result) (interval : Z) :
  1 <= n <= 2147483647 ->
  parse_options prog (Opt_t (string_of_Z n) :: opts) interval
  = parse_options prog opts n.
Proof.
  intros Hn. cbn [parse_options].
  rewrite atoi_string_of_Z by lia.
  unfold wrap32. rewrite Z.mod_small by lia.
  replace (n <? 1) with false by (symmetry; apply Z.ltb_ge; lia).
  reflexivity.
Qed.

Lemma decimal_interval_accepted_witness :
  parse_options "netspeed" [Opt_t "5"; Opt_t "30"] 1 = inl 30.
Proof.
  change "5" with (string_of_Z 5). change "30" with (string_of_Z 30).
  rewrite (decimal_interval_accepted "netspeed" 5) by lia.
  rewrite (decimal_interval_accepted "netspeed" 30) by lia.
  reflexivity.
Defined.

(** ** Configuration *)

Lemma parse_options_range (prog : string) (opts : list getopt_result) :
  forall interval j,
    1 <= interval < 2 ^ 32 ->
    parse_options prog opts interval = inl j -> 1 <= j < 2 ^ 32.
Proof.
  induction opts as [|[optarg|] opts IH]; intros interval j Hi; simpl.
  - intros [= <-]. exact Hi.
  - pose proof (Z.mod_pos_bound (atoi optarg) (2 ^ 32) ltac:(lia)) as Hm.
    unfold wrap32. destruct (Z.ltb_spec (atoi optarg mod 2 ^ 32) 1); [discriminate|].
    apply IH. lia.
  - discriminate.
Qed.


Lemma validate_filter_none (host : string -> bool) (fs : list string) :
  validate_filter host fs = None
  <-> Forall (fun f => interface_exists host f = true) fs.
Proof.
  induction fs as [|f fs IH]; simpl.
  - split; [constructor|reflexivity].
  - destruct (interface_exists host f) eqn:E.
    + rewrite IH. split; [intros H; constructor; assumption|].
      intros H. apply Forall_cons in H as [_ H]. exact H.
    + split; [discriminate|]. intros H. apply Forall_cons in H as [H _]. congruence.
Qed.


(** X1. A configuration that is accepted has an interval from 1 to
    [2^32 - 1], so the rates never divide by zero; its filter is the list
    of operands, and each of them exists on the host. *)
Theorem configure_accepts (host : string -> bool) (cl : cmdline) (g : globals) :
  configure host cl = inl g ->
  1 <= polling_interval g < 2 ^ 32
  /\ interface_filter g = operands cl
  /\ Forall (fun f => interface_exists host f = true) (operands cl).
Proof.
  unfold configure.
  destruct (parse_options (progname cl) (options cl) 1) as [interval|failure] eqn:Hp;
    [|discriminate].
  destruct (validate_filter host (operands cl)) eqn:Hv; [discriminate|].
  intros [= <-]. simpl. split; [|split; [reflexivity|]].
  - apply (parse_options_range (progname cl) (options cl) 1 interval); [lia|exact Hp].
  - apply validate_filter_none, Hv.
Qed.

Lemma configure_accepts_witness :
  1 <= polling_interval (Globals 30 ["eth0"]) < 2 ^ 32.
Proof.
  exact (proj1 (configure_accepts any_host (Cmdline "netspeed" [Opt_t "30"] ["eth0"])
                  (Globals 30 ["eth0"]) eq_refl)).
Defined.





(** ** The loop state *)

Lemma snapshot_of_length (g : globals) (contents : string) :
  (length (snapshot_of g contents) <= Z.to_nat MAX_INTERFACES)%nat.
Proof. unfold snapshot_of. rewrite length_take. lia. Qed.

Lemma snapshot_of_well_formed (g : globals) (contents : string) :
  Forall (well_formed_entry g) (snapshot_of g contents).
Proof.
  apply Forall_forall. intros e He. unfold snapshot_of in He.
  apply elem_of_take in He as (i & He & _).
  apply list_elem_of_lookup_2, list_elem_of_omap in He as (line & _ & Hline).
  exact (scan_line_entry g line e Hline).
Qed.

(** A read of a source that opens, on an array of 32 entries. *)
Lemma read_interfaces_some (g : globals) (contents : string)
    (arr : list interface_t) :
  length arr = Z.to_nat MAX_INTERFACES ->
  read_interfaces g (Some contents) arr
  = (Z.of_nat (length (snapshot_of g contents)),
     (snapshot_of g contents ++ drop (length (snapshot_of g contents)) arr)%list,
     []).
Proof.
  intros Hlen. unfold read_interfaces.
  pose proof (read_loop_spec g (drop 2 (fgets_lines contents)) arr 0 Hlen
                ltac:(lia)) as H.
  change (Z.of_nat 0) with 0 in H. simpl in H. rewrite H. reflexivity.
Qed.

Lemma read_interfaces_length (g : globals) (source : option string)
    (arr : list interface_t) :
  length arr = Z.to_nat MAX_INTERFACES ->
  length (read_interfaces g source arr).1.2 = Z.to_nat MAX_INTERFACES
  /\ (read_interfaces g source arr).1.1 <= MAX_INTERFACES.
Proof.
  intros Hlen. destruct source as [contents|];
    [|simpl; split; [exact Hlen|unfold MAX_INTERFACES; lia]].
  rewrite read_interfaces_some by exact Hlen. simpl.
  pose proof (snapshot_of_length g contents) as Hs.
  rewrite length_app, length_drop. unfold MAX_INTERFACES in *. lia.
Qed.

(** The state after a cycle whose read yields at least one entry. *)
Lemma cycle_some (g : globals) (st : state) (contents : string) :
  length (curr_interfaces st) = Z.to_nat MAX_INTERFACES ->
  1 <= prev_count st ->
  snapshot_of g contents <> [] ->
  let S := snapshot_of g contents in
  let curr := (S ++ drop (length S) (curr_interfaces st))%list in
  cycle g st (Some contents)
  = (State (S ++ drop (length S) (prev_interfaces st))%list curr
       (Z.of_nat (length S)),
     [calculate_and_output_rates g (prev_interfaces st) curr (Z.of_nat (length S))]).
Proof.
  intros Hlen Hp Hne S curr.
  assert (0 < length S)%nat
    by (subst S; destruct (snapshot_of g contents); [congruence|simpl; lia]).
  unfold cycle.
  rewrite read_interfaces_some by exact Hlen. fold S. fold curr.
  replace (Z.of_nat (length S) <=? 0) with false by (symmetry; apply Z.leb_gt; lia).
  replace (0 <? prev_count st) with true by (symmetry; apply Z.ltb_lt; lia).
  unfold memcpy. rewrite Nat2Z.id. unfold curr at 1. rewrite take_app_length.
  reflexivity.
Qed.

Lemma cycle_state_ok (g : globals) (st : state) (source : option string) :
  state_ok g st -> state_ok g (cycle g st source).1.
Proof.
  intros (Hprev & Hcurr & Hcount & Hwf).
  unfold state_ok, retained. unfold MAX_INTERFACES in *.
  destruct source as [contents|].
  - destruct (snapshot_of g contents) as [|e S] eqn:HS.
    + unfold cycle. rewrite read_interfaces_some by exact Hcurr. rewrite HS.
      simpl. rewrite drop_0. repeat split; assumption || lia.
    + rewrite cycle_some by (rewrite ?HS; (assumption || lia || discriminate)).
      rewrite HS. pose proof (snapshot_of_length g contents) as Hl.
      pose proof (snapshot_of_well_formed g contents) as Hw.
      rewrite HS in Hl, Hw. unfold MAX_INTERFACES in Hl.
      cbn [fst prev_interfaces curr_interfaces prev_count].
      rewrite !length_app, !length_drop, Nat2Z.id, take_app_length.
      repeat split; try lia; try exact Hw.
      simpl in Hl |- *. lia.
  - unfold cycle. simpl. repeat split; assumption || lia.
Qed.

Lemma polling_loop_state_ok (g : globals) (sources : list (option string)) :
  forall st, state_ok g st -> state_ok g (polling_loop g st sources).1.
Proof.
  induction sources as [|source sources IH]; intros st H; simpl; [exact H|].
  pose proof (cycle_state_ok g st source H) as Hc.
  destruct (cycle g st source) as [st' out].
  specialize (IH st' Hc).
  destruct (polling_loop g st' sources) as [st'' out']. exact IH.
Qed.

(** X8. After any number of cycles both arrays still have 32 entries and
    the retained count is from 1 to 32, so every index the loop uses is
    within the arrays; and every retained entry is well formed (a name
    of at most 15 characters, counters within [unsigned long long]). *)
Theorem loop_state_ok (host : string -> bool) (cl : cmdline)
    (first : option string) (rest : list (option string))
    (g : globals) (st : state) (out : list event) :
  main host cl first rest = (Polling g st, out) -> state_ok g st.
Proof.
  unfold main.
  destruct (configure host cl) as [g0|[status o]]; [|discriminate].
  unfold run.
  pose proof (read_interfaces_length g0 first zero_interfaces eq_refl) as [Hl Hc].
  destruct first as [contents|]; [|discriminate].
  rewrite read_interfaces_some in * by reflexivity. simpl in Hl, Hc.
  set (S := snapshot_of g0 contents) in *.
  destruct (Z.leb_spec (Z.of_nat (length S)) 0) as [|Hpos]; [discriminate|].
  pose proof (polling_loop_state_ok g0 rest
                (State (S ++ drop (length S) zero_interfaces)%list zero_interfaces
                   (Z.of_nat (length S)))) as H.
  destruct (polling_loop g0 _ rest) as [st' out'].
  intros [= <- <- _]. apply H.
  unfold state_ok, retained. simpl.
  rewrite Nat2Z.id, take_app_length.
  repeat split; try assumption; try lia. apply snapshot_of_well_formed.
Qed.

Lemma loop_state_ok_witness :
  exists st out,
    main any_host no_args (Some dev_two) [Some dev_one; None; Some dev_two]
    = (Polling (Globals 1 []) st, out)
    /\ state_ok (Globals 1 []) st.
Proof.
  eexists _, _. split; [vm_compute; reflexivity|].
  refine (loop_state_ok any_host no_args (Some dev_two)
            [Some dev_one; None; Some dev_two] (Globals 1 []) _ _ _).
  vm_compute. reflexivity.
Defined.

(** X9. A cycle that reads a snapshot [S] of at least one and at most as
    many entries as the retained one prints the totals of the
    calculation over the first [length S] retained entries - over the
    whole retained snapshot when the two have equally many - and then
    retains [S]. *)
Theorem cycle_rotates (g : globals) (st : state) (contents : string) :
  state_ok g st ->
  snapshot_of g contents <> [] ->
  (length (snapshot_of g contents) <= length (retained st))%nat ->
  let S := snapshot_of g contents in
  (cycle g st (Some contents)).2
  = [let '(rx, tx) := spec_compute_rates g (take (length S) (retained st)) S in
     output_json rx tx]
  /\ (length S = length (retained st) ->
      (cycle g st (Some contents)).2
      = [let '(rx, tx) := spec_compute_rates g (retained st) S in
         output_json rx tx])
  /\ retained (cycle g st (Some contents)).1 = S
  /\ prev_count (cycle g st (Some contents)).1 = Z.of_nat (length S).
Proof.
  intros (Hprev & Hcurr & Hcount & Hwf) Hne Hle S.
  rewrite cycle_some by (assumption || lia). subst S.
  set (S := snapshot_of g contents) in *. clearbody S.
  cbn [fst snd retained prev_interfaces prev_count].
  assert (Hout : calculate_and_output_rates g (prev_interfaces st)
                   (S ++ drop (length S) (curr_interfaces st))%list
                   (Z.of_nat (length S))
                 = (let '(rx, tx) :=
                      spec_compute_rates g (take (length S) (retained st)) S in
                    output_json rx tx)).
  { unfold calculate_and_output_rates, calculate_rates, spec_compute_rates, retained.
    rewrite Nat2Z.id, take_app_length, take_take.
    unfold retained in Hle. rewrite length_take in Hle.
    replace (length S `min` Z.to_nat (prev_count st))%nat with (length S) by lia.
    reflexivity. }
  rewrite Hout. split; [reflexivity|]. split.
  - intros Heq. rewrite Heq, firstn_all. reflexivity.
  - unfold retained. cbn [prev_interfaces prev_count].
    rewrite Nat2Z.id, take_app_length. split; reflexivity.
Qed.

Lemma cycle_rotates_witness :
  (cycle (Globals 2 [])
     (State (Interface "eth0" 1000 500 :: drop 1 zero_interfaces) zero_interfaces 1)
     (Some (dev_header ++ dev_line "eth0" 3000 1500))).2
  = [SampleLine "1.0K" "500B"].
Proof.
  refine (proj1 (cycle_rotates (Globals 2 [])
                   (State (Interface "eth0" 1000 500 :: drop 1 zero_interfaces)
                      zero_interfaces 1)
                   (dev_header ++ dev_line "eth0" 3000 1500) _ _ _)).
  - split; [reflexivity|]. split; [reflexivity|].
    split; [unfold MAX_INTERFACES; simpl; lia|].
    unfold retained. simpl. constructor; [|constructor].
    unfold well_formed_entry, in_u64. simpl.
    split; [lia|]. split; [lia|]. split; [lia|].
    exists "eth0". split; reflexivity.
  - vm_compute. discriminate.
  - vm_compute. lia.
Defined.

(** ** Name matching *)

Lemma find_match_none (c : interface_t) (prev : list interface_t) :
  find_match c prev = None <-> Forall (fun p => name p <> name c) prev.
Proof.
  induction prev as [|p prev IH]; simpl.
  - split; [constructor|reflexivity].
  - destruct (strcmp (name c) (name p) =? 0) eqn:E.
    + apply strcmp_zero in E. split; [discriminate|].
      intros H. apply Forall_cons in H as [H _]. congruence.
    + rewrite IH. split.
      * intros H. constructor; [|exact H]. intros Heq.
        assert ((strcmp (name c) (name p) =? 0) = true)
          by (apply strcmp_zero; congruence). congruence.
      * intros H. apply Forall_cons in H as [_ H]. exact H.
Qed.

(** X10. The search returns the first entry of the scanned part that has
    the name, and nothing exactly when no entry there has it; entries
    after the first match, of that name or not, play no part. *)
Theorem find_match_first (c p : interface_t) (prev : list interface_t) :
  find_match c prev = Some p
  <-> exists pre post,
        prev = (pre ++ p :: post)%list
        /\ name p = name c
        /\ Forall (fun x => name x <> name c) pre.
Proof.
  split.
  - induction prev as [|x prev IH]; simpl; [discriminate|].
    destruct (strcmp (name c) (name x) =? 0) eqn:E.
    + intros [= <-]. apply strcmp_zero in E.
      exists [], prev. split; [reflexivity|]. split; [congruence|constructor].
    + intros H. destruct (IH H) as (pre & post & -> & Hn & Hpre).
      exists (x :: pre), post. split; [reflexivity|]. split; [exact Hn|].
      constructor; [|exact Hpre]. intros Heq.
      assert ((strcmp (name c) (name x) =? 0) = true)
        by (apply strcmp_zero; congruence). congruence.
  - intros (pre & post & -> & Hn & Hpre).
    induction Hpre as [|x pre Hx _ IH]; simpl.
    + assert (E : (strcmp (name c) (name p) =? 0) = true)
        by (apply strcmp_zero; congruence).
      rewrite E. reflexivity.
    + destruct (strcmp (name c) (name x) =? 0) eqn:E; [|exact IH].
      apply strcmp_zero in E. congruence.
Qed.

Lemma sum_rates_unmatched (g : globals) (prev curr : list interface_t)
    (totals : Z * Z) :
  Forall (fun c => Forall (fun p => name p <> name c) prev) curr ->
  sum_rates g prev curr totals = totals.
Proof.
  intros H. induction H as [|c curr Hc _ IH]; simpl; [reflexivity|].
  rewrite (proj2 (find_match_none c prev) Hc). exact IH.
Qed.

(** X11. When none of the first [count] current entries has the name of
    one of the first [count] previous entries, both totals are zero. *)
Theorem unmatched_names_give_zero (g : globals) (prev curr : list interface_t)
    (count : Z) :
  Forall (fun c => Forall (fun p => name p <> name c) (take (Z.to_nat count) prev))
    (take (Z.to_nat count) curr) ->
  calculate_rates g prev curr count = (0, 0).
Proof. intros H. unfold calculate_rates. apply sum_rates_unmatched, H. Qed.

Lemma unmatched_names_give_zero_witness :
  calculate_rates (Globals 1 []) [Interface "eth0" 10 10; Interface "eth1" 5 5]
    [Interface "wlan0" 70 70; Interface "wlan1" 9 9] 2 = (0, 0).
Proof.
  apply unmatched_names_give_zero. simpl.
  repeat constructor; discriminate.
Defined.

(** ** Reading lines *)

Lemma fgets_lines_from_spec (s : string) :
  forall room, (1 <= room <= 255)%nat ->
    concat_lines (fgets_lines_from room s) = s
    /\ match fgets_lines_from room s with
       | [] => True
       | l :: ls => line_within room l = true /\ Forall (fun x => fgets_line x = true) ls
       end.
Proof.
  induction s as [|c s IH]; intros room Hroom; [split; [reflexivity|exact I]|].
  cbn [fgets_lines_from]. change (Z.to_nat MAX_LINE_LEN - 1)%nat with 255%nat.
  destruct (Ascii.eqb c (ascii_of_nat 10) || (room <=? 1)%nat) eqn:E.
  - destruct (IH 255%nat ltac:(lia)) as [Hc Hl]. cbn [concat_lines String.append].
    rewrite Hc. split; [reflexivity|].
    split; [destruct room; [lia|reflexivity]|].
    destruct (fgets_lines_from 255 s) as [|l ls]; [constructor|].
    destruct Hl as [Hl Hls]. constructor; assumption.
  - apply orb_false_elim in E as [Hnl Hr]. apply Nat.leb_gt in Hr.
    destruct (IH (room - 1)%nat ltac:(lia)) as [Hc Hl].
    destruct (fgets_lines_from (room - 1) s) as [|l ls].
    + cbn [concat_lines] in Hc. subst s. split; [reflexivity|].
      split; [destruct room; [lia|reflexivity]|constructor].
    + cbn [concat_lines String.append] in *. rewrite Hc. split; [reflexivity|].
      destruct Hl as [Hl Hls]. split; [|exact Hls].
      destruct room as [|room]; [lia|].
      replace (S room - 1)%nat with room in Hl by lia.
      destruct l as [|c' l]; [destruct room; discriminate|].
      cbn [line_within]. rewrite Hnl, Hl. reflexivity.
Qed.

(** X12. The lines that the reader gets from a source, put end to end,
    are the source; each is non-empty, has at most 255 characters and has
    a newline, if any, only as its last character. *)
Theorem fgets_lines_spec (s : string) :
  concat_lines (fgets_lines s) = s
  /\ Forall (fun l => fgets_line l = true) (fgets_lines s).
Proof.
  unfold fgets_lines. change (Z.to_nat MAX_LINE_LEN - 1)%nat with 255%nat.
  destruct (fgets_lines_from_spec s 255 ltac:(lia)) as [Hc Hl].
  split; [exact Hc|].
  destruct (fgets_lines_from 255 s) as [|l ls]; [constructor|].
  destruct Hl as [Hl Hls]. constructor; assumption.
Qed.

(** ** Conversion and scaling over the whole 64-bit range *)

Lemma shr_iter (k : positive) :
  forall mrs, 0 <= shr_m mrs ->
              shr_m (SpecFloat.iter_pos shr_1 k mrs) = shr_m mrs / 2 ^ Z.pos k.
Proof.
  assert (Hpos : forall j, 0 < 2 ^ Z.pos j) by (intros j; apply Z.pow_pos_nonneg; lia).
  induction k as [k IH|k IH|]; intros mrs Hm; cbn [SpecFloat.iter_pos].
  - pose proof (Hpos k).
    assert (H1 : 0 <= shr_m (shr_1 mrs))
      by (rewrite shr_m_shr_1 by exact Hm; apply Z.div_pos; lia).
    assert (H2 : 0 <= shr_m (SpecFloat.iter_pos shr_1 k (shr_1 mrs)))
      by (rewrite IH by exact H1; apply Z.div_pos; lia).
    rewrite IH by exact H2. rewrite IH by exact H1.
    rewrite shr_m_shr_1 by exact Hm.
    rewrite !Z.div_div by lia. f_equal.
    replace (Z.pos k~1) with (1 + Z.pos k + Z.pos k) by lia.
    rewrite !Z.pow_add_r by lia. change (2 ^ 1) with 2. lia.
  - pose proof (Hpos k).
    assert (H1 : 0 <= shr_m (SpecFloat.iter_pos shr_1 k mrs))
      by (rewrite IH by exact Hm; apply Z.div_pos; lia).
    rewrite IH by exact H1. rewrite IH by exact Hm.
    rewrite Z.div_div by lia. f_equal.
    replace (Z.pos k~0) with (Z.pos k + Z.pos k) by lia.
    rewrite Z.pow_add_r by lia. reflexivity.
  - rewrite shr_m_shr_1 by exact Hm. reflexivity.
Qed.

(** Rounding an integer of 54 to 64 bits. *)
Lemma binary_round_aux_wide (m d : Z) :
  54 <= d <= 64 -> 2 ^ (d - 1) <= m < 2 ^ d ->
  exists m' e,
    binary_round_aux prec emax false m 0 loc_Exact = S754_finite false m' e
    /\ 2 ^ 52 <= Z.pos m' < 2 ^ 53 /\ d - 53 <= e <= d - 52.
Proof.
  intros Hd Hm.
  assert (0 < 2 ^ (d - 1)) by (apply Z.pow_pos_nonneg; lia).
  rewrite binary_round_aux_eq.
  unfold shr_fexp at 1 2 3. rewrite (Zdigits2_unique m d Hm) by lia.
  unfold fexp, emin, prec, emax.
  replace (Z.max (d + 0 - 53) (3 - 1024 - 53) - 0) with (d - 53) by lia.
  destruct (d - 53) as [|k|k] eqn:Ek; [lia| |lia].
  cbn [shr fst snd].
  set (mrs := SpecFloat.iter_pos shr_1 k (shr_record_of_loc m loc_Exact)).
  assert (Hmrs : shr_m mrs = m / 2 ^ Z.pos k)
    by (unfold mrs; rewrite shr_iter; simpl; [reflexivity|lia]).
  rewrite Hmrs.
  assert (Hpk : 0 < 2 ^ Z.pos k) by (apply Z.pow_pos_nonneg; lia).
  assert (Hlo : 2 ^ 52 * 2 ^ Z.pos k = 2 ^ (d - 1))
    by (rewrite <- Z.pow_add_r by lia; f_equal; lia).
  assert (Hhi : 2 ^ 53 * 2 ^ Z.pos k = 2 ^ d)
    by (rewrite <- Z.pow_add_r by lia; f_equal; lia).
  assert (Hq : 2 ^ 52 <= m / 2 ^ Z.pos k < 2 ^ 53).
  { split; [apply Z.div_le_lower_bound|apply Z.div_lt_upper_bound]; lia. }
  destruct (round_finish_spec (m / 2 ^ Z.pos k) (0 + Z.pos k) (loc_of_shr_record mrs))
    as (m' & e & Heq & Hb & He & _); [exact Hq|lia|].
  exists m', e. fold prec emax. split; [exact Heq|]. split; [exact Hb|lia].
Qed.

(** From 53 bits on the conversion rounds the integer itself. *)
Lemma double_of_ull_wide (p : positive) (d : Z) :
  53 <= d -> 2 ^ (d - 1) <= Z.pos p < 2 ^ d ->
  double_of_ull (Z.pos p) = binary_round_aux prec emax false (Z.pos p) 0 loc_Exact.
Proof.
  intros Hd Hp. unfold double_of_ull, binary_normalize, binary_round.
  rewrite (digits2_pos_unique p d Hp).
  unfold fexp, emin, shl_align, prec, emax.
  replace (Z.max (d + 0 - 53) (3 - 1024 - 53) - 0) with (d - 53) by lia.
  destruct (d - 53) as [|k|k] eqn:E; [reflexivity|reflexivity|lia].
Qed.

(** The conversion of a count of at least 1000: a normal number, at
    least [1000.0]. *)
Lemma double_of_ull_normal (b : Z) :
  1000 <= b < 2 ^ 64 ->
  exists m e,
    double_of_ull b = S754_finite false m e
    /\ 2 ^ 52 <= Z.pos m < 2 ^ 53 /\ -43 <= e <= 12
    /\ (e = -43 -> 8796093022208000 <= Z.pos m).
Proof.
  intros Hb.
  pose proof (Z.log2_spec b ltac:(lia)) as Hl.
  assert (HL : 9 <= Z.log2 b <= 63).
  { split; [change 9 with (Z.log2 1000); apply Z.log2_le_mono; lia|].
    apply Z.lt_succ_r, Z.log2_lt_pow2; lia. }
  set (d := Z.log2 b + 1).
  assert (Hbd : 2 ^ (d - 1) <= b < 2 ^ d)
    by (unfold d; replace (Z.log2 b + 1 - 1) with (Z.log2 b) by lia; exact Hl).
  assert (Hd : 10 <= d <= 64) by (unfold d; lia).
  clearbody d. clear Hl HL.
  destruct (Z.le_gt_cases d 52) as [Hsmall|Hbig].
  - destruct (double_of_ull_exact b d Hbd ltac:(lia)) as (m & Heq & Hm).
    exists m, (d - 53). split; [exact Heq|].
    assert (Hlo : 2 ^ (d - 1) * 2 ^ (53 - d) = 2 ^ 52)
      by (rewrite <- Z.pow_add_r by lia; f_equal; lia).
    assert (Hhi : 2 ^ d * 2 ^ (53 - d) = 2 ^ 53)
      by (rewrite <- Z.pow_add_r by lia; f_equal; lia).
    assert (0 < 2 ^ (53 - d)) by (apply Z.pow_pos_nonneg; lia).
    split; [nia|]. split; [lia|].
    intros He. assert (d = 10) as -> by lia. simpl in Hm. lia.
  - destruct b as [|p|p]; [lia| |lia].
    rewrite (double_of_ull_wide p d ltac:(lia) Hbd).
    destruct (Z.eq_dec d 53) as [->|Hne].
    + destruct (binary_round_aux_spec (Z.pos p) 0 loc_Exact)
        as (m & e & Heq & Hcan & _ & _ & Hx); [simpl in Hbd; lia|lia|].
      destruct Hx as [Hxm Hxe]; [simpl in Hbd; lia|reflexivity|].
      exists m, e. split; [exact Heq|]. split; [exact Hcan|]. lia.
    + destruct (binary_round_aux_wide (Z.pos p) d ltac:(lia) Hbd)
        as (m & e & Heq & Hcan & He).
      exists m, e. split; [exact Heq|]. split; [exact Hcan|]. lia.
Qed.

Lemma double_div_normal (lo hi : Z) (x : double) :
  normal_in lo hi x -> -1064 <= lo -> hi <= 957 ->
  normal_in (lo - 10) (hi - 8) (double_div x d1000).
Proof.
  intros (m & e & -> & Hm & He) Hlo Hhi. rewrite d1000_eq.
  destruct (double_div_spec m 8796093022208000 e (-43))
    as (m' & e' & Heq & Hm' & He' & _); [exact Hm|lia|lia|].
  exists m', e'. split; [exact Heq|]. split; [exact Hm'|lia].
Qed.

Lemma double_ge_false_inv (m : positive) (e : Z) :
  double_ge (S754_finite false m e) d1000 = false ->
  e < -43 \/ (e = -43 /\ Z.pos m < 8796093022208000).
Proof.
  rewrite d1000_eq. intros H.
  destruct (Z.lt_trichotomy e (-43)) as [Hlt|[Heq|Hgt]]; [left; exact Hlt| |].
  - destruct (Z.lt_ge_cases (Z.pos m) 8796093022208000) as [Hm|Hm];
      [right; split; assumption|].
    rewrite double_ge_true in H by (right; split; [lia|exact Hm]). discriminate.
  - rewrite double_ge_true in H by (left; lia). discriminate.
Qed.

Lemma last_cons_default (A : Type) (l : list A) (x d : A) :
  List.last (x :: l) d = List.last l x.
Proof.
  revert x d. induction l as [|y l IH]; intros x d; [reflexivity|].
  change (List.last (x :: y :: l) d) with (List.last (y :: l) d).
  rewrite IH. symmetry. apply IH.
Qed.

(** The loop of lines 70-73 from a normal value: it stops either because
    the value is below [1000.0], or at the last unit with the exponent
    lowered by at least 8 per division. *)
Lemma scale_units_spec (rest : list string) :
  forall (value : double) (u : string) (lo hi : Z),
    normal_in lo hi value ->
    -1064 <= lo - 10 * Z.of_nat (length rest) -> hi <= 957 ->
    exists m e,
      (scale_units value u rest).1 = S754_finite false m e
      /\ 2 ^ 52 <= Z.pos m < 2 ^ 53
      /\ lo - 10 * Z.of_nat (length rest) <= e
      /\ (scale_units value u rest).2 ∈ u :: rest
      /\ (double_ge (S754_finite false m e) d1000 = false
          \/ ((scale_units value u rest).2 = List.last rest u
              /\ e <= hi - 8 * Z.of_nat (length rest))).
Proof.
  induction rest as [|u' rest IH]; intros value u lo hi Hn Hlo Hhi.
  - destruct Hn as (m & e & -> & Hm & He). exists m, e. simpl.
    split; [reflexivity|]. split; [exact Hm|]. split; [lia|].
    split; [repeat constructor|]. right. split; [reflexivity|lia].
  - cbn [scale_units]. cbn [length] in Hlo |- *.
    destruct (double_ge value d1000) eqn:Hge.
    + destruct (IH (double_div value d1000) u' (lo - 10) (hi - 8))
        as (m & e & Heq & Hm & He & Hin & Hor);
        [apply double_div_normal; (assumption || lia)|lia|lia|].
      exists m, e. split; [exact Heq|]. split; [exact Hm|]. split; [lia|].
      split; [apply list_elem_of_further, Hin|].
      destruct Hor as [Hf|[Hl Hle]]; [left; exact Hf|right].
      rewrite last_cons_default. split; [exact Hl|lia].
    + destruct Hn as (m & e & -> & Hm & He). exists m, e. simpl.
      split; [reflexivity|]. split; [exact Hm|]. split; [lia|].
      split; [apply list_elem_of_here|]. left. exact Hge.
Qed.

Lemma round_tenths_below_1000 (m : positive) (e : Z) :
  2 ^ 52 <= Z.pos m < 2 ^ 53 ->
  e < -43 \/ (e = -43 /\ Z.pos m < 8796093022208000) ->
  0 <= round_tenths m e <= 10000.
Proof.
  intros Hm He.
  pose proof (round_tenths_near m e ltac:(lia)) as Hr.
  destruct He as [He|[-> Hlt]].
  - assert (HD : 2 ^ 44 <= 2 ^ (- e)) by (apply Z.pow_le_mono_r; lia).
    set (D := 2 ^ (- e)) in *. set (q := round_tenths m e) in *.
    change (2 ^ 44) with 17592186044416 in HD.
    change (2 ^ 53) with 9007199254740992 in Hm.
    split; nia.
  - simpl in Hr. set (q := round_tenths m (-43)) in *. lia.
Qed.

Lemma round_tenths_last_unit (m : positive) (e : Z) :
  2 ^ 52 <= Z.pos m < 2 ^ 53 -> e <= -28 ->
  0 <= round_tenths m e <= 335544320.
Proof.
  intros Hm He.
  pose proof (round_tenths_near m e ltac:(lia)) as Hr.
  assert (HD : 2 ^ 28 <= 2 ^ (- e)) by (apply Z.pow_le_mono_r; lia).
  set (D := 2 ^ (- e)) in *. set (q := round_tenths m e) in *.
  change (2 ^ 28) with 268435456 in HD.
  change (2 ^ 53) with 9007199254740992 in Hm.
  split; nia.
Qed.

(** ** The length of decimal text *)

Lemma string_length_app (a b : string) :
  String.length (a ++ b) = (String.length a + String.length b)%nat.
Proof. induction a as [|c a IH]; simpl; [reflexivity|rewrite IH; reflexivity]. Qed.

Lemma truncate_short (k : nat) (s : string) :
  (String.length s <= k)%nat -> truncate k s = s.
Proof.
  unfold truncate. revert s.
  induction k as [|k IH]; intros [|c s] H; simpl in *; try reflexivity; try lia.
  rewrite IH by lia. reflexivity.
Qed.

Lemma string_of_uint_length (d : Decimal.uint) :
  String.length (NilEmpty.string_of_uint d) = uint_length d.
Proof. induction d; simpl; congruence. Qed.

Lemma uint_value_acc (d : Decimal.uint) :
  forall acc,
    uint_value acc d = acc * 10 ^ Z.of_nat (uint_length d) + uint_value 0 d.
Proof.
  induction d as [|d IH|d IH|d IH|d IH|d IH|d IH|d IH|d IH|d IH|d IH];
    intros acc; cbn [uint_value uint_length];
    [simpl; lia|..];
    rewrite Nat2Z.inj_succ, Z.pow_succ_r by lia;
    rewrite (IH (10 * acc + _)) || rewrite (IH (10 * acc));
    try rewrite (IH (10 * 0 + _)); try rewrite (IH (10 * 0)); lia.
Qed.

Lemma uint_value_nonneg (d : Decimal.uint) :
  forall acc, 0 <= acc -> 0 <= uint_value acc d.
Proof.
  induction d as [|d IH|d IH|d IH|d IH|d IH|d IH|d IH|d IH|d IH|d IH];
    intros acc Hacc; cbn [uint_value]; [exact Hacc|apply IH; lia..].
Qed.

(** A numeral of a number is ["0"] or begins with a non-zero digit. *)
Lemma to_uint_head (n : N) :
  N.to_uint n = Decimal.D0 Decimal.Nil
  \/ 10 ^ (Z.of_nat (uint_length (N.to_uint n)) - 1) <= uint_value 0 (N.to_uint n).
Proof.
  pose proof (DecimalN.Unsigned.to_of (N.to_uint n)) as Hn.
  rewrite DecimalN.Unsigned.of_to in Hn. symmetry in Hn.
  destruct (N.to_uint n) as [|d|d|d|d|d|d|d|d|d|d]; [discriminate| |right..].
  2-10: cbn [uint_value uint_length]; rewrite uint_value_acc;
    pose proof (uint_value_nonneg d 0 ltac:(lia));
    replace (Z.of_nat (S (uint_length d)) - 1) with (Z.of_nat (uint_length d)) by lia;
    assert (0 < 10 ^ Z.of_nat (uint_length d)) by (apply Z.pow_pos_nonneg; lia);
    nia.
  left. rewrite DecimalFacts.unorm_D0 in Hn.
  destruct d as [|d|d|d|d|d|d|d|d|d|d]; [reflexivity|exfalso..];
    match type of Hn with
    | Decimal.unorm ?x = _ =>
        pose proof (DecimalFacts.nb_digits_unorm x ltac:(discriminate)) as Hd;
        rewrite Hn in Hd; simpl in Hd; lia
    end.
Qed.

(** The decimal text of a number below [10^k] has at most [k]
    characters. *)
Lemma string_of_Z_length (n : Z) (k : nat) :
  0 <= n < 10 ^ Z.of_nat k -> (1 <= k)%nat ->
  (1 <= String.length (string_of_Z n) <= k)%nat.
Proof.
  intros Hn Hk. unfold string_of_Z.
  pose proof (uint_value_to_uint (Z.to_N n)) as Hv. rewrite Z2N.id in Hv by lia.
  destruct (to_uint_head (Z.to_N n)) as [H0|Hhead].
  - rewrite H0. simpl. lia.
  - rewrite Hv in Hhead.
    destruct (N.to_uint (Z.to_N n)) as [|d|d|d|d|d|d|d|d|d|d] eqn:E;
      [simpl; lia|..];
      unfold NilZero.string_of_uint; rewrite string_of_uint_length;
      (split; [simpl; lia|]);
      apply Nat2Z.inj_le;
      assert (Hlt : 10 ^ (Z.of_nat (uint_length (N.to_uint (Z.to_N n))) - 1)
                    < 10 ^ Z.of_nat k) by (rewrite E; lia);
      apply Z.pow_lt_mono_r_iff in Hlt; rewrite E in Hlt; lia.
Qed.

Lemma scale_units_step (value : double) (u u' : string) (rest : list string) :
  scale_units value u (u' :: rest)
  = if double_ge value d1000
    then scale_units (double_div value d1000) u' rest
    else (value, u).
Proof. reflexivity. Qed.

(** X13. For every 64-bit count the text is complete - the buffer of 16
    bytes never cuts it, and it is never [inf] or [nan]: below 1000 the
    digits and [B]; from 1000 on a number with one decimal and a unit
    from [K] to [P], where the number is at most 1000.0 unless the unit
    is [P]. The text has at most 11 characters. *)
Theorem format_total (b : Z) :
  0 <= b < 2 ^ 64 ->
  (String.length (format_human_readable b) <= 11)%nat
  /\ ((b < 1000 /\ format_human_readable b = string_of_Z b ++ "B")
      \/ (1000 <= b
          /\ exists q u,
               u ∈ ["K"; "M"; "G"; "T"; "P"]
               /\ 0 <= q <= 335544320
               /\ (u <> "P" -> q <= 10000)
               /\ format_human_readable b
                  = string_of_Z (q / 10) ++ "." ++ string_of_Z (q mod 10) ++ u)).
Proof.
  intros Hb. unfold format_human_readable, units, DECIMAL_BASE.
  destruct (Z.ltb_spec b 1000) as [Hlt|Hge].
  - pose proof (string_of_Z_length b 3 ltac:(simpl; lia) ltac:(lia)) as Hl.
    rewrite truncate_short by (rewrite string_length_app; simpl; lia).
    split; [rewrite string_length_app; simpl; lia|]. left. split; [exact Hlt|reflexivity].
  - destruct (double_of_ull_normal b ltac:(lia)) as (m0 & e0 & Heq0 & Hm0 & He0 & Hmin).
    rewrite scale_units_step, Heq0.
    assert (Hge0 : double_ge (S754_finite false m0 e0) d1000 = true).
    { rewrite d1000_eq. apply double_ge_true.
      destruct (Z.eq_dec e0 (-43)) as [E|E]; [right; split; [lia|apply Hmin, E]|left; lia]. }
    rewrite Hge0.
    assert (Hn1 : normal_in (-43 - 10) (12 - 8)
                    (double_div (S754_finite false m0 e0) d1000)).
    { apply double_div_normal; [|lia|lia].
      exists m0, e0. split; [reflexivity|]. split; [exact Hm0|lia]. }
    destruct (scale_units_spec ["M"; "G"; "T"; "P"]
                (double_div (S754_finite false m0 e0) d1000) "K" _ _ Hn1
                ltac:(simpl; lia) ltac:(lia))
      as (m & e & Heq & Hm & He & Hin & Hor).
    destruct (scale_units (double_div (S754_finite false m0 e0) d1000) "K"
                ["M"; "G"; "T"; "P"]) as [v u].
    cbn [fst snd] in Heq, Hin, Hor. subst v.
    unfold printf_1f. cbn [sign_string]. set (q := round_tenths m e).
    assert (Hq : 0 <= q <= 335544320 /\ (u <> "P" -> q <= 10000)).
    { destruct Hor as [Hf|[Hl Hle]].
      - pose proof (round_tenths_below_1000 m e Hm (double_ge_false_inv m e Hf)).
        fold q in H. split; [lia|intros _; lia].
      - pose proof (round_tenths_last_unit m e Hm ltac:(simpl in Hle; lia)).
        fold q in H. split; [lia|]. intros Hu. simpl in Hl. congruence. }
    destruct Hq as [Hq Hsmall].
    assert (Hu : String.length u = 1%nat).
    { repeat (apply elem_of_cons in Hin as [->|Hin]); try reflexivity.
      apply elem_of_nil in Hin. destruct Hin. }
    assert (Hi : (1 <= String.length (string_of_Z (q / 10)) <= 8)%nat).
    { apply string_of_Z_length; [|lia]. split; [apply Z.div_pos; lia|].
      apply Z.div_lt_upper_bound; simpl; lia. }
    assert (Hf : (1 <= String.length (string_of_Z (q mod 10)) <= 1)%nat).
    { apply string_of_Z_length; [|lia].
      pose proof (Z.mod_pos_bound q 10 ltac:(lia)). simpl. lia. }
    assert (Htext : ("" ++ string_of_Z (q / 10) ++ "." ++ string_of_Z (q mod 10)) ++ u
                    = string_of_Z (q / 10) ++ "." ++ string_of_Z (q mod 10) ++ u).
    { cbn [String.append]. rewrite string_app_assoc. reflexivity. }
    rewrite Htext.
    assert (Hlen : (String.length
                      (string_of_Z (q / 10) ++ "." ++ string_of_Z (q mod 10) ++ u)
                    <= 11)%nat).
    { rewrite !string_length_app, Hu. simpl. lia. }
    rewrite truncate_short by lia.
    split; [exact Hlen|]. right. split; [exact Hge|].
    exists q, u. split; [exact Hin|]. split; [exact Hq|]. split; [exact Hsmall|reflexivity].
Qed.

Lemma format_total_witness :
  (String.length (format_human_readable 18446744073709551615) <= 11)%nat.
Proof.
  exact (proj1 (format_total 18446744073709551615 ltac:(lia))).
Defined.

(** ** Options in sequence *)

(** X14. The options are taken from left to right: a list of options
    followed by another behaves as the first, and when that is accepted,
    as the second started from the interval the first left. So the first
    rejected option ends the run and, failing that, the last [-t]
    decides the interval. *)
Theorem parse_options_app (prog : string) (opts1 opts2 : list getopt_result)
    (interval : Z) :
  parse_options prog (opts1 ++ opts2)%list interval
  = match parse_options prog opts1 interval with
    | inl interval' => parse_options prog opts2 interval'
    | inr failure => inr failure
    end.
Proof.
  revert interval. induction opts1 as [|[optarg|] opts1 IH]; intros interval.
  - reflexivity.
  - cbn [app parse_options]. destruct (wrap32 (atoi optarg) <? 1); [reflexivity|apply IH].
  - reflexivity.
Qed.

(** ** The output of the loop *)

Lemma cycle_shape (g : globals) (st : state) (source : option string) :
  state_ok g st ->
  map sample_erased (cycle g st source).2 = source_shape g source.
Proof.
  intros (Hprev & Hcurr & Hcount & Hwf). destruct source as [contents|].
  - unfold source_shape. destruct (snapshot_of g contents) as [|e S] eqn:HS.
    + unfold cycle. rewrite read_interfaces_some by exact Hcurr. rewrite HS. reflexivity.
    + rewrite cycle_some by (rewrite ?HS; (assumption || lia || discriminate)).
      cbn [snd map]. unfold calculate_and_output_rates.
      destruct (calculate_rates _ _ _ _). reflexivity.
  - reflexivity.
Qed.

Lemma polling_loop_shape (g : globals) (sources : list (option string)) :
  forall st, state_ok g st ->
    map sample_erased (polling_loop g st sources).2
    = mbind (source_shape g) sources.
Proof.
  induction sources as [|source sources IH]; intros st Hst; [reflexivity|].
  cbn [polling_loop].
  pose proof (cycle_shape g st source Hst) as Hc.
  pose proof (cycle_state_ok g st source Hst) as Hs.
  destruct (cycle g st source) as [st' out].
  specialize (IH st' Hs).
  destruct (polling_loop g st' sources) as [st'' out'].
  cbn [snd] in *. rewrite map_app, Hc, IH. reflexivity.
Qed.

Lemma initial_state_ok (g : globals) (contents : string) :
  0 < Z.of_nat (length (snapshot_of g contents)) ->
  state_ok g
    (State (snapshot_of g contents
            ++ drop (length (snapshot_of g contents)) zero_interfaces)%list
       zero_interfaces (Z.of_nat (length (snapshot_of g contents)))).
Proof.
  intros Hpos.
  pose proof (snapshot_of_length g contents) as Hl.
  unfold state_ok, retained. cbn [prev_interfaces curr_interfaces prev_count].
  rewrite Nat2Z.id, take_app_length, length_app, length_drop.
  change (length zero_interfaces) with 32%nat.
  unfold MAX_INTERFACES in *.
  split; [lia|]. split; [reflexivity|]. split; [lia|].
  apply snapshot_of_well_formed.
Qed.

(** X16. While [main] is in its loop, what it has written is, numbers
    apart, decided by the outcomes of the reads alone: nothing for the
    first read, then per cycle one error line when the source cannot be
    opened, nothing when it yields no interface, and one sample line
    otherwise. *)
Theorem loop_output_shape (host : string -> bool) (cl : cmdline)
    (first : option string) (rest : list (option string))
    (g : globals) (st : state) (out : list event) :
  main host cl first rest = (Polling g st, out) ->
  map sample_erased out = mbind (source_shape g) rest.
Proof.
  unfold main.
  destruct (configure host cl) as [g0|[status o]]; [|discriminate].
  unfold run.
  destruct first as [contents|]; [|discriminate].
  rewrite read_interfaces_some by reflexivity.
  set (S := snapshot_of g0 contents).
  destruct (Z.leb_spec (Z.of_nat (length S)) 0) as [|Hpos]; [discriminate|].
  pose proof (polling_loop_shape g0 rest
                (State (S ++ drop (length S) zero_interfaces)%list zero_interfaces
                   (Z.of_nat (length S)))) as H.
  destruct (polling_loop g0 _ rest) as [st' out'].
  intros [= <- _ <-]. apply H, initial_state_ok, Hpos.
Qed.

Lemma loop_output_shape_witness :
  map sample_erased
    (main any_host no_args (Some dev_two) [Some dev_one; None; Some dev_header]).2
  = [SampleLine "" ""; ErrorLine "Error" "Cannot open /proc/net/dev"].
Proof.
  destruct (main any_host no_args (Some dev_two) [Some dev_one; None; Some dev_header])
    as [o out] eqn:E.
  assert (Ho : exists st, o = Polling (Globals 1 []) st).
  { eexists. apply (f_equal fst) in E. vm_compute in E. symmetry. exact E. }
  destruct Ho as [st ->].
  exact (loop_output_shape any_host no_args (Some dev_two)
           [Some dev_one; None; Some dev_header] (Globals 1 []) st out E).
Defined.

(** X15. A cycle that reads a snapshot [S] writes only the first
    [length S] entries of either array: the entries after them stay as
    they were, also in the array of the previous snapshot. *)
Theorem cycle_frame (g : globals) (st : state) (contents : string) :
  state_ok g st ->
  let S := snapshot_of g contents in
  drop (length S) (prev_interfaces (cycle g st (Some contents)).1)
  = drop (length S) (prev_interfaces st)
  /\ drop (length S) (curr_interfaces (cycle g st (Some contents)).1)
     = drop (length S) (curr_interfaces st).
Proof.
  intros (Hprev & Hcurr & Hcount & Hwf) S. subst S.
  destruct (snapshot_of g contents) as [|e S] eqn:HS.
  - unfold cycle. rewrite read_interfaces_some by exact Hcurr. rewrite HS.
    split; reflexivity.
  - rewrite cycle_some by (rewrite ?HS; (assumption || lia || discriminate)).
    rewrite HS. cbn [fst prev_interfaces curr_interfaces].
    rewrite !drop_app_length. split; reflexivity.
Qed.

Lemma cycle_frame_witness :
  drop 1 (prev_interfaces
            (cycle (Globals 1 [])
               (State (Interface "eth0" 1 1 :: Interface "wlan0" 2 2
                         :: drop 2 zero_interfaces) zero_interfaces 2)
               (Some (dev_header ++ dev_line "wlan0" 9 9))).1)
  = Interface "wlan0" 2 2 :: drop 2 zero_interfaces.
Proof.
  refine (proj1 (cycle_frame (Globals 1 [])
                   (State (Interface "eth0" 1 1 :: Interface "wlan0" 2 2
                             :: drop 2 zero_interfaces) zero_interfaces 2)
                   (dev_header ++ dev_line "wlan0" 9 9) _)).
  split; [reflexivity|]. split; [reflexivity|].
  split; [unfold MAX_INTERFACES; simpl; lia|].
  unfold retained. simpl.
  constructor; [|constructor; [|constructor]];
    unfold well_formed_entry, in_u64; simpl;
    (split; [lia|]); (split; [lia|]); (split; [lia|]);
    [exists "eth0"|exists "wlan0"]; split; reflexivity.
Defined.

(** ** The totals *)

Lemma sum_rates_wrapped (g : globals) (prev curr : list interface_t) :
  forall a b,
    sum_rates g prev curr (wrap64 a, wrap64 b)
    = (wrap64 (a + Zsum (map fst (matched_rates g prev curr))),
       wrap64 (b + Zsum (map snd (matched_rates g prev curr)))).
Proof.
  induction curr as [|c curr IH]; intros a b; cbn [sum_rates matched_rates].
  - simpl. rewrite !Z.add_0_r. reflexivity.
  - destruct (find_match c prev) as [p|]; [|apply IH].
    cbn [fst snd map Zsum foldr]. unfold add64.
    change (wrap64 (wrap64 a + rate g (rx_bytes c) (rx_bytes p)))
      with ((a mod 2 ^ 64 + rate g (rx_bytes c) (rx_bytes p)) mod 2 ^ 64).
    change (wrap64 (wrap64 b + rate g (tx_bytes c) (tx_bytes p)))
      with ((b mod 2 ^ 64 + rate g (tx_bytes c) (tx_bytes p)) mod 2 ^ 64).
    rewrite !Zplus_mod_idemp_l.
    change (((a + rate g (rx_bytes c) (rx_bytes p)) mod 2 ^ 64,
             (b + rate g (tx_bytes c) (tx_bytes p)) mod 2 ^ 64))
      with (wrap64 (a + rate g (rx_bytes c) (rx_bytes p)),
            wrap64 (b + rate g (tx_bytes c) (tx_bytes p))).
    rewrite IH. unfold Zsum. rewrite !Z.add_assoc. reflexivity.
Qed.

(** X17. Each total is the sum of the rates of the matched pairs taken
    modulo [2^64]: wrapping at every addition gives the same as wrapping
    the exact sum once. *)
Theorem totals_are_sums (g : globals) (prev curr : list interface_t)
    (count : Z) :
  let rates := matched_rates g (take (Z.to_nat count) prev)
                 (take (Z.to_nat count) curr) in
  calculate_rates g prev curr count
  = (Zsum (map fst rates) mod 2 ^ 64, Zsum (map snd rates) mod 2 ^ 64).
Proof.
  intros rates. unfold calculate_rates.
  change (0, 0) with (wrap64 0, wrap64 0).
  rewrite sum_rates_wrapped. reflexivity.
Qed.
